(** * iLogtail output path: a shallow embedding of the sources and of the
      pipeline the specification describes.

    The development has six parts:
    - [GoRt]: the Go runtime facts the Go sources rely on (64-bit [int],
      [float64] conversion, bounds-checked indexing, panics);
    - [Rfc3164]: the RFC 3164 syslog parser of
      [external/github.com/jeromer/syslogparser/rfc3164/rfc3164.go];
    - [MetricExport]: [pluginmanager/metric_export.go];
    - [MetricConstants]: the declarations of
      [core/monitor/metric_constants/MetricConstants.h];
    - [ConfigProvider]: [core/config/provider/ConfigProvider.cpp];
    - [Pipeline]: bounded queues, rate limiters and the
      process-queue-to-sender-queue path, which the specification describes
      and whose code is not part of the sources. *)

From Stdlib Require Import ZArith List Lia Bool.
From Stdlib Require Import Strings.Byte Strings.String Strings.Ascii DecimalString.
From stdpp Require Import gmap strings list.

Set Default Proof Using "Type".

(* ===================================================================== *)
(** * Go runtime                                                          *)
(* ===================================================================== *)

Module GoRt.

(** Run-time panics of the Go runtime that the modelled code can raise. *)
Inductive GoPanic : Type :=
| IndexOutOfRange (i : Z) (len : Z)
| SliceBoundsOutOfRange (lo hi : Z) (cap : Z).

(** Outcome of running a Go function: it returns, it panics, or the loop
    budget of the model ran out (which the theorems show never happens). *)
Inductive Go (A : Type) : Type :=
| Ret (a : A)
| Panic (e : GoPanic)
| OutOfFuel.

Arguments Ret {A} a.
Arguments Panic {A} e.
Arguments OutOfFuel {A}.

Definition bind {A B : Type} (m : Go A) (k : A -> Go B) : Go B :=
  match m with
  | Ret a => k a
  | Panic e => Panic e
  | OutOfFuel => OutOfFuel
  end.

(** The stdpp monad notations [x ← m; k] and ['(x, y) ← m; k] are used for
    sequencing. *)
#[global] Instance Go_ret : MRet Go := fun A a => Ret a.
#[global] Instance Go_bind : MBind Go := fun A B k m => bind m k.

(** [int] is 64 bits wide on the platforms the agent targets; arithmetic
    wraps around. *)
Definition int_min : Z := - 2 ^ 63.
Definition int_max : Z := 2 ^ 63 - 1.
Definition wrap64 (z : Z) : Z := ((z + 2 ^ 63) mod 2 ^ 64 - 2 ^ 63)%Z.
Definition int_add (a b : Z) : Z := wrap64 (a + b).

(** [len(s)] of a slice. *)
Definition len {A : Type} (s : list A) : Z := Z.of_nat (length s).

(** [s[i]]: bounds-checked indexing. *)
Definition index (s : list byte) (i : Z) : Go byte :=
  if ((0 <=? i) && (i <? len s))%Z
  then match nth_error s (Z.to_nat i) with
       | Some b => Ret b
       | None => Panic (IndexOutOfRange i (len s))
       end
  else Panic (IndexOutOfRange i (len s)).

(** [s[lo:hi]]: the slices taken by the modelled code never reach beyond
    [len(s)], so the capacity of the backing array is taken to be [len(s)]. *)
Definition slice (s : list byte) (lo hi : Z) : Go (list byte) :=
  if ((0 <=? lo) && (lo <=? hi) && (hi <=? len s))%Z
  then Ret (firstn (Z.to_nat (hi - lo)) (skipn (Z.to_nat lo) s))
  else Panic (SliceBoundsOutOfRange lo hi (len s)).

(** [float64(n)] for an [int] n. The result is always an integer, which is
    what this function returns: [n] itself up to 2^53 in magnitude, and
    beyond that [n] rounded to 53 significant bits, ties to even. *)
Definition float64_of_int (n : Z) : Z :=
  let m := Z.abs n in
  if (m <=? 2 ^ 53)%Z then n
  else
    let e := (Z.log2 m - 52)%Z in
    let q := (m / 2 ^ e)%Z in
    let r := (m mod 2 ^ e)%Z in
    let h := (2 ^ (e - 1))%Z in
    let q' := if (r <? h)%Z then q
              else if (h <? r)%Z then (q + 1)%Z
              else if Z.even q then q else (q + 1)%Z in
    (Z.sgn n * (q' * 2 ^ e))%Z.

(** [math.Min] on two finite floats that hold integers. *)
Definition math_Min (x y : Z) : Z := Z.min x y.

(** [int(f)] for a float holding an integer: the value when it fits, and
    the "integer indefinite" value of the amd64 conversion otherwise. *)
Definition int_of_float64 (f : Z) : Z :=
  if ((int_min <=? f) && (f <=? int_max))%Z then f else int_min.

(** [b == c] on bytes. *)
Definition byte_is (b c : byte) : bool := Byte.eqb b c.

Lemma wrap64_id z : (int_min <= z <= int_max)%Z -> wrap64 z = z.
Proof.
  unfold wrap64, int_min, int_max. intros H.
  rewrite Z.mod_small; lia.
Qed.

Lemma wrap64_high z :
  (int_max < z <= int_max + 2 ^ 63)%Z -> (wrap64 z < 0)%Z.
Proof.
  unfold wrap64, int_max. intros H.
  replace (z + 2 ^ 63)%Z with ((z - 2 ^ 63) + 1 * 2 ^ 64)%Z by lia.
  rewrite Z.mod_add by lia. rewrite Z.mod_small; lia.
Qed.

Lemma float64_of_int_exact n :
  (Z.abs n <= 2 ^ 53)%Z -> float64_of_int n = n.
Proof.
  intros H. unfold float64_of_int.
  destruct (Z.leb_spec (Z.abs n) (2 ^ 53)); [reflexivity | lia].
Qed.

Lemma float64_of_int_neg n : (n < 0)%Z -> (float64_of_int n <= 0)%Z.
Proof.
  intros H. unfold float64_of_int.
  destruct (Z.leb_spec (Z.abs n) (2 ^ 53)); [lia |].
  set (e := (Z.log2 (Z.abs n) - 52)%Z).
  set (q := (Z.abs n / 2 ^ e)%Z).
  assert (He : (0 < 2 ^ e)%Z).
  { apply Z.pow_pos_nonneg; [lia |]. subst e.
    assert (53 <= Z.log2 (Z.abs n))%Z; [| lia].
    apply Z.log2_le_pow2; lia. }
  assert (Hq : (0 <= q)%Z) by (subst q; apply Z.div_pos; lia).
  rewrite Z.sgn_neg by lia.
  match goal with |- (-1 * (?x * _) <= 0)%Z => assert (0 <= x)%Z end.
  { repeat match goal with |- context [if ?b then _ else _] => destruct b end; lia. }
  nia.
Qed.

Lemma float64_of_int_large n :
  (2 ^ 53 < n)%Z -> (2 ^ 53 <= float64_of_int n)%Z.
Proof.
  intros H. unfold float64_of_int.
  rewrite Z.abs_eq by lia.
  destruct (Z.leb_spec n (2 ^ 53)); [lia |].
  set (e := (Z.log2 n - 52)%Z).
  set (q := (n / 2 ^ e)%Z).
  assert (Hlog : (53 <= Z.log2 n)%Z) by (apply Z.log2_le_pow2; lia).
  assert (He : (1 <= e)%Z) by (subst e; lia).
  assert (Hpe : (2 <= 2 ^ e)%Z).
  { change 2%Z with (2 ^ 1)%Z at 1. apply Z.pow_le_mono_r; lia. }
  assert (Hq : (2 ^ 52 <= q)%Z).
  { subst q. apply Z.div_le_lower_bound; [lia |].
    rewrite Z.mul_comm, <- Z.pow_add_r by lia.
    replace (52 + e)%Z with (Z.log2 n) by (subst e; lia).
    apply Z.log2_spec. lia. }
  rewrite Z.sgn_pos by lia.
  match goal with |- (_ <= 1 * (?x * _))%Z => assert (q <= x)%Z end.
  { repeat match goal with |- context [if ?b then _ else _] => destruct b end; lia. }
  nia.
Qed.

End GoRt.

(* ===================================================================== *)
(** * The RFC 3164 parser (rfc3164.go)                                    *)
(* ===================================================================== *)

Module Rfc3164.
Import GoRt.

(** [syslogparser.Priority]: the priority value with its facility and
    severity parts. *)
Record Priority : Type := mkPriority { P : Z; F : Z; S : Z }.

(** The [*ParserError] values of package [syslogparser] that a parse can
    return. *)
Inductive ParserError : Type :=
| ErrEOL
| ErrNoSpace
| ErrPriorityNoStart
| ErrPriorityEmpty
| ErrPriorityNoEnd
| ErrPriorityTooShort
| ErrPriorityTooLong
| ErrPriorityNonDigit
| ErrVersionNotFound
| ErrTimestampUnknownFormat.

(** A Go [error]: [None] is [nil]. *)
Abbreviation error := (option ParserError).

Definition is_ErrEOL (e : error) : bool :=
  match e with Some ErrEOL => true | _ => false end.

(** [syslogparser.NO_VERSION] *)
Definition NO_VERSION : Z := -1.

Section Parser.

(** [time.Time] and [*time.Location] are left abstract. *)
Context {Time Location : Type}.

Record header : Type := mkHeader {
  timestamp : Time;
  hdr_hostname : list byte
}.

Record rfc3164message : Type := mkMessage {
  tag : list byte;
  content : list byte
}.

Record Parser : Type := mkParser {
  buff : list byte;
  cursor : Z;
  l : Z;
  priority : Priority;
  version : Z;
  hdr : header;
  message : rfc3164message;
  location : Location;
  hostname : list byte
}.

Definition set_cursor (p : Parser) (c : Z) : Parser :=
  mkParser (buff p) c (l p) (priority p) (version p) (hdr p) (message p)
           (location p) (hostname p).

(** The space byte [' '] and the three bytes that end a tag. *)
Definition sp : byte := " "%byte.
Definition lbracket : byte := "["%byte.
Definition rbracket : byte := "]"%byte.
Definition colon : byte := ":"%byte.

(** The [for p.cursor < limit] loop of [parseTag], on the loop variables
    [p.cursor], [tag] and [enough]. [fuel] bounds the number of iterations;
    [parseTag] passes [limit - p.cursor], one per byte the loop can visit. *)
Fixpoint parseTag_loop (fuel : nat) (bf : list byte) (limit c : Z)
    (tg : list byte) (enough : bool) : Go (Z * list byte) :=
  if (c <? limit)%Z then
    match fuel with
    | O => OutOfFuel
    | Datatypes.S fuel' =>
      b ← index bf c;
      if byte_is b sp then
        Ret (int_add c 1, tg)
      else if byte_is b lbracket || byte_is b rbracket || byte_is b colon
              || enough then
        parseTag_loop fuel' bf limit (int_add c 1) tg true
      else
        parseTag_loop fuel' bf limit (int_add c 1) (tg ++ [b]) enough
    end
  else Ret (c, tg).

(** [func (p *Parser) parseTag() (string, error)] *)
Definition parseTag (p : Parser) : Go (Parser * (list byte * error)) :=
  let previous := cursor p in
  let limit :=
    int_of_float64
      (math_Min (float64_of_int (l p))
                (float64_of_int (int_add (cursor p) 32))) in
  '(c, tg) ← parseTag_loop (Z.to_nat (limit - cursor p)) (buff p) limit
                            (cursor p) [] false;
  let p1 := set_cursor p c in
  let p2 := if (len tg =? 0)%Z then set_cursor p1 previous else p1 in
  Ret (p2, (tg, None)).

(** ** What the parser takes from outside this file's sources

    [syslogparser.ParsePriority] and [syslogparser.ParseHostname] (package
    [syslogparser], imported by rfc3164.go) take the cursor by pointer; here
    they return the new cursor next to their results. [time.ParseInLocation]
    returns its [Time] and whether its error is [nil]. *)
Variable syslogparser_ParsePriority :
  list byte -> Z -> Z -> Go (Priority * error * Z).
Variable syslogparser_ParseHostname :
  list byte -> Z -> Z -> Go (list byte * error * Z).
Variable time_ParseInLocation : list byte -> list byte -> Location -> Time * bool.
Variable zeroTime : Time.
Variable UTC : Location.
Variable time_Now : Time.
Variable Year : Time -> Z.
(** [time.Date(y, ts.Month(), ts.Day(), ts.Hour(), ts.Minute(), ts.Second(),
    ts.Nanosecond(), ts.Location())] *)
Variable Date_with_year : Z -> Time -> Time.

(** [func NewParser(buff []byte) *Parser] *)
Definition NewParser (bf : list byte) : Parser :=
  mkParser bf 0 (len bf) (mkPriority 0 0 0) 0 (mkHeader zeroTime [])
           (mkMessage [] []) UTC [].

(** [func (p *Parser) Location(location *time.Location)] *)
Definition set_Location (p : Parser) (loc : Location) : Parser :=
  mkParser (buff p) (cursor p) (l p) (priority p) (version p) (hdr p)
           (message p) loc (hostname p).

(** [func (p *Parser) Hostname(hostname string)] *)
Definition set_Hostname (p : Parser) (h : list byte) : Parser :=
  mkParser (buff p) (cursor p) (l p) (priority p) (version p) (hdr p)
           (message p) (location p) h.

(** [func (p *Parser) parsePriority() (syslogparser.Priority, error)] *)
Definition parsePriority (p : Parser) : Go (Parser * (Priority * error)) :=
  '(pri, err, c) ← syslogparser_ParsePriority (buff p) (cursor p) (l p);
  Ret (set_cursor p c, (pri, err)).

(** [func fixTimestampIfNeeded(ts *time.Time)] *)
Definition fixTimestampIfNeeded (ts : Time) : Time :=
  let y := if (Year ts =? 0)%Z then Year time_Now else Year ts in
  Date_with_year y ts.

Definition tsFmts : list (list byte) :=
  [ list_byte_of_string "Jan 02 15:04:05";
    list_byte_of_string "Jan  2 15:04:05" ].

(** The [for _, tsFmt := range tsFmts] loop of [parseTimestamp], on the
    variables [tsFmtLen] and [ts] that outlive it; the Boolean is [found]. *)
Fixpoint parseTimestamp_loop (fmts : list (list byte)) (p : Parser)
    (tsFmtLen : Z) (ts : Time) : Go (bool * Z * Time) :=
  match fmts with
  | [] => Ret (false, tsFmtLen, ts)
  | tsFmt :: rest =>
    let tsFmtLen := len tsFmt in
    if (int_add (cursor p) tsFmtLen >? l p)%Z then
      parseTimestamp_loop rest p tsFmtLen ts
    else
      sub ← slice (buff p) (cursor p) (int_add tsFmtLen (cursor p));
      let '(ts, ok) := time_ParseInLocation tsFmt sub (location p) in
      if ok then Ret (true, tsFmtLen, ts)
      else parseTimestamp_loop rest p tsFmtLen ts
  end.

(** The guarded skip [if (p.cursor < p.l) && (p.buff[p.cursor] == ' ')
    { p.cursor++ }]. *)
Definition skip_space_guarded (p : Parser) : Go Parser :=
  if (cursor p <? l p)%Z then
    b ← index (buff p) (cursor p);
    Ret (if byte_is b sp then set_cursor p (int_add (cursor p) 1) else p)
  else Ret p.

(** [func (p *Parser) parseTimestamp() (time.Time, error)] *)
Definition parseTimestamp (p : Parser) : Go (Parser * (Time * error)) :=
  '(found, tsFmtLen, ts) ← parseTimestamp_loop tsFmts p 0 zeroTime;
  if negb found then
    p1 ← skip_space_guarded (set_cursor p tsFmtLen);
    Ret (p1, (ts, Some ErrTimestampUnknownFormat))
  else
    let ts := fixTimestampIfNeeded ts in
    p1 ← skip_space_guarded (set_cursor p (int_add (cursor p) tsFmtLen));
    Ret (p1, (ts, None)).

(** [func (p *Parser) parseHostname() (string, error)] *)
Definition parseHostname (p : Parser) : Go (Parser * (list byte * error)) :=
  match hostname p with
  | _ :: _ => Ret (p, (hostname p, None))
  | [] =>
    '(h, err, c) ← syslogparser_ParseHostname (buff p) (cursor p) (l p);
    Ret (set_cursor p c, (h, err))
  end.

(** [func (p *Parser) parseHeader() (header, error)] *)
Definition parseHeader (p : Parser) : Go (Parser * (header * error)) :=
  let hdr0 := mkHeader zeroTime [] in
  '(p1, (ts, err)) ← parseTimestamp p;
  match err with
  | Some _ => Ret (p1, (hdr0, err))
  | None =>
    '(p2, (h, err)) ← parseHostname p1;
    match err with
    | Some _ => Ret (p2, (hdr0, err))
    | None => Ret (p2, (mkHeader ts h, None))
    end
  end.

(** [bytes.Trim(s, " ")] *)
Fixpoint trim_left (s : list byte) : list byte :=
  match s with
  | b :: s' => if byte_is b sp then trim_left s' else s
  | [] => []
  end.

Definition bytes_Trim_space (s : list byte) : list byte :=
  rev (trim_left (rev (trim_left s))).

(** [func (p *Parser) parseContent() (string, error)] *)
Definition parseContent (p : Parser) : Go (Parser * (list byte * error)) :=
  if (cursor p >? l p)%Z then Ret (p, ([], Some ErrEOL))
  else
    s ← slice (buff p) (cursor p) (l p);
    let content := bytes_Trim_space s in
    Ret (set_cursor p (int_add (cursor p) (len content)),
         (content, Some ErrEOL)).

(** [func (p *Parser) parsemessage() (rfc3164message, error)] *)
Definition parsemessage (p : Parser) : Go (Parser * (rfc3164message * error)) :=
  let msg0 := mkMessage [] [] in
  '(p1, (tg, err)) ← parseTag p;
  match err with
  | Some _ => Ret (p1, (msg0, err))
  | None =>
    '(p2, (ct, err)) ← parseContent p1;
    if negb (is_ErrEOL err) then Ret (p2, (msg0, err))
    else Ret (p2, (mkMessage tg ct, err))
  end.

(** The unguarded [if p.buff[p.cursor] == ' ' { p.cursor++ }] of [Parse]. *)
Definition skip_space_unguarded (p : Parser) : Go Parser :=
  b ← index (buff p) (cursor p);
  Ret (if byte_is b sp then set_cursor p (int_add (cursor p) 1) else p).

(** [func (p *Parser) Parse() error] *)
Definition Parse (p : Parser) : Go (Parser * error) :=
  '(p1, (pri, err)) ← parsePriority p;
  match err with
  | Some _ => Ret (p1, err)
  | None =>
    '(p2, (h, err)) ← parseHeader p1;
    match err with
    | Some _ => Ret (p2, err)
    | None =>
      p3 ← skip_space_unguarded p2;
      '(p4, (msg, err)) ← parsemessage p3;
      if negb (is_ErrEOL err) then Ret (p4, err)
      else
        Ret (mkParser (buff p4) (cursor p4) (l p4) pri NO_VERSION h msg
                      (location p4) (hostname p4), None)
    end
  end.

(** [type ParseResult struct] *)
Record ParseResult : Type := mkParseResult {
  Timestamp : Time;
  Hostname : list byte;
  Tag : list byte;
  Content : list byte;
  PriorityValue : Z;
  Facility : Z;
  Severity : Z
}.

(** [func (p *Parser) DumpParseResult() ParseResult] *)
Definition DumpParseResult (p : Parser) : ParseResult :=
  mkParseResult (timestamp (hdr p)) (hdr_hostname (hdr p)) (tag (message p))
                (content (message p)) (P (priority p)) (F (priority p))
                (S (priority p)).

(** A value of [syslogparser.LogParts], a [map[string]interface{}]: the
    parser stores a time, a string or an [int]. *)
Inductive LogValue : Type :=
| TimeValue (t : Time)
| StringValue (s : list byte)
| IntValue (n : Z).

(** [func (p *Parser) Dump() syslogparser.LogParts] *)
Definition Dump (p : Parser) : gmap string LogValue :=
  <["timestamp" := TimeValue (timestamp (hdr p))]>
  (<["hostname" := StringValue (hdr_hostname (hdr p))]>
  (<["tag" := StringValue (tag (message p))]>
  (<["content" := StringValue (content (message p))]>
  (<["priority" := IntValue (P (priority p))]>
  (<["facility" := IntValue (F (priority p))]>
  (<["severity" := IntValue (S (priority p))]> ∅)))))).

End Parser.

Arguments header : clear implicits.
Arguments Parser : clear implicits.
Arguments ParseResult : clear implicits.
Arguments LogValue : clear implicits.

(** ** Package [syslogparser]

    Modelled from the spec: [syslogparser.ParsePriority] and
    [syslogparser.ParseHostname] are called by rfc3164.go but their file
    (external/github.com/jeromer/syslogparser/syslogparser.go) is not among
    the sources, and the specification leaves syslog wire formats to the
    format's own definition. The two functions below follow RFC 3164, which
    rfc3164.go cites: a priority is ['<'], one to three digits, ['>'] (section
    4.1.1), and a hostname runs up to the next space (section 4.1.2). They
    only serve to instantiate the parameters of [Parse] on concrete input. *)

Definition is_digit (b : byte) : bool :=
  (N.leb (Byte.to_N "0"%byte) (Byte.to_N b)
   && N.leb (Byte.to_N b) (Byte.to_N "9"%byte))%bool.

Definition digit_value (b : byte) : Z :=
  Z.of_N (Byte.to_N b) - Z.of_N (Byte.to_N "0"%byte).

Definition newPriority (p : Z) : Priority :=
  mkPriority p (Z.quot p 8) (Z.rem p 8).

Fixpoint ParsePriority_loop (fuel : nat) (bf : list byte) (ln i priDigit : Z)
    : Go (Priority * error * option Z) :=
  if (i <? ln)%Z then
    match fuel with
    | O => OutOfFuel
    | Datatypes.S fuel' =>
      if (i >=? 5)%Z then Ret (newPriority 0, Some ErrPriorityTooLong, None)
      else
        c ← index bf i;
        if byte_is c ">"%byte then
          if (i =? 1)%Z then Ret (newPriority 0, Some ErrPriorityTooShort, None)
          else Ret (newPriority priDigit, None, Some (int_add i 1))
        else if is_digit c then
          ParsePriority_loop fuel' bf ln (int_add i 1)
                             (int_add (wrap64 (priDigit * 10)) (digit_value c))
        else Ret (newPriority 0, Some ErrPriorityNonDigit, None)
    end
  else Ret (newPriority 0, Some ErrPriorityNoEnd, None).

Definition ParsePriority (bf : list byte) (cur ln : Z)
    : Go (Priority * error * Z) :=
  if (ln <=? 0)%Z then Ret (newPriority 0, Some ErrPriorityEmpty, cur)
  else
    b ← index bf cur;
    if negb (byte_is b "<"%byte) then
      Ret (newPriority 0, Some ErrPriorityNoStart, cur)
    else
      '(pri, err, c) ← ParsePriority_loop 5 bf ln 1 0;
      Ret (pri, err, default cur c).

Fixpoint ParseHostname_loop (fuel : nat) (bf : list byte) (ln to : Z) : Go Z :=
  if (to <? ln)%Z then
    match fuel with
    | O => OutOfFuel
    | Datatypes.S fuel' =>
      b ← index bf to;
      if byte_is b " "%byte then Ret to
      else ParseHostname_loop fuel' bf ln (int_add to 1)
    end
  else Ret to.

Definition ParseHostname (bf : list byte) (cur ln : Z)
    : Go (list byte * error * Z) :=
  to ← ParseHostname_loop (Z.to_nat (ln - cur)) bf ln cur;
  h ← slice bf cur to;
  Ret (h, None, to).

(** The log line ["<13>Jan 02 15:04:05"]: a priority and a timestamp, and
    nothing after them. *)
Definition truncated_line : list byte :=
  list_byte_of_string "<13>Jan 02 15:04:05".

(** A stand-in for [time.ParseInLocation] on concrete input: it accepts a
    value exactly when it is the text of the layout itself, as Go does for
    ["Jan 02 15:04:05"] under the layout ["Jan 02 15:04:05"]. *)
Definition accepts_layout_text (layout value : list byte) (loc : unit)
    : unit * bool :=
  (tt, bool_decide (List.map Byte.to_N layout = List.map Byte.to_N value)).

(** [NewParser(line).Parse()] with the functions above. *)
Definition Parse_line (line : string) : Go (Parser unit unit * error) :=
  Parse ParsePriority ParseHostname accepts_layout_text tt tt (fun _ => 0%Z)
        (fun _ t => t) (NewParser tt tt (list_byte_of_string line)).

(** What a parse that returned left in the parser: hostname, tag, content
    and the error. *)
Definition parts (r : Go (Parser unit unit * error))
    : option (list byte * list byte * list byte * error) :=
  match r with
  | Ret (p, e) =>
    Some (hdr_hostname (hdr p), tag (message p), content (message p), e)
  | _ => None
  end.

(** The bytes [bf[lo:hi]] when the bounds are in range, and what is left
    of them otherwise. *)
Definition window (bf : list byte) (lo hi : Z) : list byte :=
  firstn (Z.to_nat (hi - lo)) (skipn (Z.to_nat lo) bf).

(** The bytes at which [parseTag] stops collecting: a space, a bracket or a
    colon. *)
Definition ends_tag (b : byte) : bool :=
  byte_is b sp || byte_is b lbracket || byte_is b rbracket || byte_is b colon.

(** The longest prefix that holds none of these bytes. *)
Fixpoint tag_prefix (w : list byte) : list byte :=
  match w with
  | [] => []
  | b :: w' => if ends_tag b then [] else b :: tag_prefix w'
  end.

(** The bytes [parseTag] looks at: the next 32, or what is left of the
    buffer. *)
Definition tag_window {Time Location : Type} (p : Parser Time Location)
    : list byte :=
  window (buff p) (cursor p) (Z.min (l p) (cursor p + 32)).

(** A parser that differs from [p] in its cursor at most. *)
Definition moved {Time Location : Type} (p p' : Parser Time Location) : Prop :=
  p' = set_cursor p (cursor p').

(** ** Facts about [parseTag] *)

Lemma index_in_range (bf : list byte) (i : Z) :
  (0 <= i < len bf)%Z -> exists b, index bf i = Ret b.
Proof.
  intros Hi. unfold index.
  destruct (Z.leb_spec 0 i); [| lia].
  destruct (Z.ltb_spec i (len bf)); [| lia]. simpl.
  destruct (nth_error bf (Z.to_nat i)) as [b |] eqn:Hn; [eauto |].
  apply nth_error_None in Hn. unfold len in *. lia.
Qed.

Lemma index_out_of_range (bf : list byte) (i : Z) :
  (len bf <= i)%Z -> index bf i = Panic (IndexOutOfRange i (len bf)).
Proof.
  intros Hi. unfold index.
  destruct (Z.ltb_spec i (len bf)); [lia |].
  now rewrite andb_false_r.
Qed.

(** The loop of [parseTag] returns when it is given one unit of fuel per
    position below [limit]; it appends at most one byte per position. *)
Lemma parseTag_loop_returns (bf : list byte) (limit : Z) :
  (limit <= len bf)%Z -> (limit <= int_max)%Z ->
  forall (fuel : nat) (c : Z) (tg : list byte) (enough : bool),
    (0 <= c)%Z -> (limit - c <= Z.of_nat fuel)%Z ->
    exists c' tg',
      parseTag_loop fuel bf limit c tg enough = Ret (c', tg')
      /\ (len tg' <= len tg + Z.max 0 (limit - c))%Z.
Proof.
  intros Hlim Hmax. induction fuel as [| fuel IH]; intros c tg enough Hc Hfuel.
  - cbn [parseTag_loop]. destruct (Z.ltb_spec c limit); [lia |].
    exists c, tg. split; [reflexivity | lia].
  - cbn [parseTag_loop]. destruct (Z.ltb_spec c limit) as [Hlt | Hge].
    + destruct (index_in_range bf c) as [b Hb]; [lia |].
      rewrite Hb. cbn [mbind Go_bind bind].
      assert (Hinc : int_add c 1 = (c + 1)%Z).
      { apply wrap64_id. unfold int_min. lia. }
      rewrite Hinc.
      destruct (byte_is b sp).
      * exists (c + 1)%Z, tg. split; [reflexivity | lia].
      * destruct (byte_is b lbracket || byte_is b rbracket || byte_is b colon
                  || enough).
        -- destruct (IH (c + 1)%Z tg true) as (c' & tg' & Heq & Hlen);
             [lia | lia |].
           exists c', tg'. split; [exact Heq | lia].
        -- destruct (IH (c + 1)%Z (tg ++ [b]) enough) as (c' & tg' & Heq & Hlen);
             [lia | lia |].
           exists c', tg'. split; [exact Heq |].
           unfold len in *. rewrite length_app in Hlen. simpl in Hlen. lia.
    + exists c, tg. split; [reflexivity | lia].
Qed.

(** The bound [limit] that [parseTag] computes through [float64]. *)
Lemma parseTag_limit (ln c : Z) :
  (0 <= ln <= 2 ^ 53)%Z -> (0 <= c <= int_max)%Z ->
  let limit := int_of_float64
                 (math_Min (float64_of_int ln) (float64_of_int (int_add c 32))) in
  (limit <= ln)%Z /\ (limit - c <= 32)%Z.
Proof.
  intros Hln Hc. cbv zeta.
  rewrite (float64_of_int_exact ln) by lia.
  unfold math_Min, int_of_float64, int_add.
  assert (Hcases : (c + 32 <= int_max \/ int_max < c + 32 <= int_max + 2 ^ 63)%Z)
    by (unfold int_max in *; lia).
  assert (Hf : (float64_of_int (wrap64 (c + 32)) <= c + 32)%Z
               \/ (ln <= float64_of_int (wrap64 (c + 32)) /\ ln <= c + 32)%Z).
  { destruct Hcases as [Hsmall | Hwrap].
    - rewrite wrap64_id by (unfold int_min; lia).
      destruct (Z.le_gt_cases (c + 32) (2 ^ 53)).
      + left. rewrite float64_of_int_exact by lia. lia.
      + right. pose proof (float64_of_int_large (c + 32)). lia.
    - left. pose proof (wrap64_high _ Hwrap).
      pose proof (float64_of_int_neg (wrap64 (c + 32))). lia. }
  unfold int_min, int_max in *.
  destruct (_ && _); lia.
Qed.

(** C9. For every parser over a buffer Go can hold ([l] is the buffer's
    length as [NewParser] sets it, at most 2^53 bytes) and every cursor
    position (a non-negative [int]), [parseTag] returns; the tag it returns has
    at most 32 bytes; and when the tag is empty the parser is left exactly as
    it was at entry, cursor included. *)
Theorem parseTag_bounded_and_restores {Time Location : Type}
    (p : Parser Time Location) :
  l p = len (buff p) ->
  (len (buff p) <= 2 ^ 53)%Z ->
  (0 <= cursor p <= int_max)%Z ->
  exists p' tg,
    parseTag p = Ret (p', (tg, None))
    /\ (len tg <= 32)%Z
    /\ (tg = [] -> p' = p).
Proof.
  intros Hl Hlen Hc. unfold parseTag.
  pose proof (parseTag_limit (l p) (cursor p)) as Hlim. cbv zeta in Hlim.
  set (limit := int_of_float64 _) in *.
  destruct Hlim as [Hlim1 Hlim2]; [unfold len in *; lia | lia |].
  destruct (parseTag_loop_returns (buff p) limit) with
    (fuel := Z.to_nat (limit - cursor p)) (c := cursor p)
    (tg := @nil byte) (enough := false) as (c' & tg' & Heq & Hbound);
    [lia | unfold int_max; lia | lia | lia |].
  rewrite Heq. cbn [mbind Go_bind bind].
  eexists _, tg'. split; [reflexivity |]. split.
  - change (len (@nil byte)) with 0%Z in Hbound. lia.
  - intros ->. cbn. destruct p; reflexivity.
Qed.

(** On the 4-byte buffer ["a:b "] from cursor 0 the tag is ["a"]. *)
Lemma parseTag_bounded_and_restores_witness :
  exists p' tg,
    parseTag (mkParser (list_byte_of_string "a:b ") 0 4 (mkPriority 0 0 0) 0
                       (mkHeader tt []) (mkMessage [] []) tt [])
      = Ret (p', (tg, None))
    /\ (len tg <= 32)%Z
    /\ (tg = [] -> p' = mkParser (list_byte_of_string "a:b ") 0 4
                          (mkPriority 0 0 0) 0 (mkHeader tt [])
                          (mkMessage [] []) tt []).
Proof.
  apply (parseTag_bounded_and_restores
           (mkParser (list_byte_of_string "a:b ") 0 4 (mkPriority 0 0 0) 0
                     (mkHeader tt []) (mkMessage [] []) tt [])).
  - reflexivity.
  - vm_compute. discriminate.
  - vm_compute. split; discriminate.
Defined.

(** ** Facts about [Parse] *)

Section ParseFacts.

Context {Time Location : Type}.
Variable syslogparser_ParsePriority :
  list byte -> Z -> Z -> Go (Priority * error * Z).
Variable syslogparser_ParseHostname :
  list byte -> Z -> Z -> Go (list byte * error * Z).
Variable time_ParseInLocation : list byte -> list byte -> Location -> Time * bool.
Variable zeroTime : Time.
Variable time_Now : Time.
Variable Year : Time -> Z.
Variable Date_with_year : Z -> Time -> Time.

Local Abbreviation parsePriority := (parsePriority syslogparser_ParsePriority).
Local Abbreviation parseHeader :=
  (parseHeader syslogparser_ParseHostname time_ParseInLocation zeroTime
               time_Now Year Date_with_year).
Local Abbreviation Parse :=
  (Parse syslogparser_ParsePriority syslogparser_ParseHostname
         time_ParseInLocation zeroTime time_Now Year Date_with_year).

(** When the priority and the header parse and leave the cursor at the end
    of the buffer, the unguarded read [p.buff[p.cursor]] of [Parse] panics. *)
Lemma Parse_panics_at_end (p p1 p2 : Parser Time Location) pri h :
  parsePriority p = Ret (p1, (pri, None)) ->
  parseHeader p1 = Ret (p2, (h, None)) ->
  (len (buff p2) <= cursor p2)%Z ->
  Parse p = Panic (IndexOutOfRange (cursor p2) (len (buff p2))).
Proof.
  intros Hpri Hhdr Hend. unfold Rfc3164.Parse.
  rewrite Hpri. cbn [mbind Go_bind bind].
  rewrite Hhdr. cbn [mbind Go_bind bind].
  unfold skip_space_unguarded.
  now rewrite index_out_of_range.
Qed.

End ParseFacts.

(** C8. [Parse] reads past the end of the buffer. Take the 19-byte line
    ["<13>Jan 02 15:04:05"], and any [ParsePriority], [time.ParseInLocation]
    and [ParseHostname] that accept its parts: the priority ["<13>"] is parsed
    and leaves the cursor at 4, the text ["Jan 02 15:04:05"] is accepted under
    the layout of the same text (cursor 19), and the hostname parsed at the end
    of the line leaves the cursor at [c], at or past the end. Then the
    unguarded read [p.buff[p.cursor]] of [Parse] is [buff[c]] on a buffer of
    length 19: an index-out-of-range panic, not an in-bounds access. *)
Theorem Parse_truncated_line_panics {Time Location : Type}
    (syslogparser_ParsePriority : list byte -> Z -> Z -> Go (Priority * error * Z))
    (syslogparser_ParseHostname : list byte -> Z -> Z -> Go (list byte * error * Z))
    (time_ParseInLocation : list byte -> list byte -> Location -> Time * bool)
    (zeroTime time_Now : Time) (UTC : Location) (Year : Time -> Z)
    (Date_with_year : Z -> Time -> Time)
    (pri : Priority) (h : list byte) (c : Z) :
  syslogparser_ParsePriority truncated_line 0%Z 19%Z = Ret (pri, None, 4%Z) ->
  snd (time_ParseInLocation (list_byte_of_string "Jan 02 15:04:05")
                            (list_byte_of_string "Jan 02 15:04:05") UTC) = true ->
  syslogparser_ParseHostname truncated_line 19%Z 19%Z = Ret (h, None, c) ->
  (19 <= c)%Z ->
  Parse syslogparser_ParsePriority syslogparser_ParseHostname
        time_ParseInLocation zeroTime time_Now Year Date_with_year
        (NewParser zeroTime UTC truncated_line)
  = Panic (IndexOutOfRange c 19%Z).
Proof.
  intros Hpri Hts Hhost Hc.
  destruct (time_ParseInLocation (list_byte_of_string "Jan 02 15:04:05")
              (list_byte_of_string "Jan 02 15:04:05") UTC) as [ts ok] eqn:Hparse.
  simpl in Hts. subst ok.
  set (p0 := NewParser zeroTime UTC truncated_line).
  set (p1 := set_cursor p0 4%Z).
  set (p2 := set_cursor (set_cursor p1 19%Z) c).
  change (@Panic (Parser Time Location * error) (IndexOutOfRange c 19%Z))
    with (@Panic (Parser Time Location * error)
            (IndexOutOfRange (cursor p2) (len (buff p2)))).
  apply (Parse_panics_at_end _ _ _ _ _ _ _ p0 p1 p2 pri
           (mkHeader (fixTimestampIfNeeded time_Now Year Date_with_year ts) h)).
  - unfold parsePriority.
    change (syslogparser_ParsePriority (buff p0) (cursor p0) (l p0))
      with (syslogparser_ParsePriority truncated_line 0%Z 19%Z).
    rewrite Hpri. reflexivity.
  - unfold parseHeader, parseTimestamp.
    replace (parseTimestamp_loop time_ParseInLocation tsFmts p1 0 zeroTime)
      with (@Ret (bool * Z * Time) (true, 15%Z, ts)).
    + cbn [mbind Go_bind bind negb].
      change (skip_space_guarded (set_cursor p1 (int_add (cursor p1) 15%Z)))
        with (@Ret (Parser Time Location) (set_cursor p1 19%Z)).
      cbn [mbind Go_bind bind]. unfold parseHostname.
      change (hostname (set_cursor p1 19%Z)) with (@nil byte). cbv iota.
      change (syslogparser_ParseHostname (buff (set_cursor p1 19%Z))
                (cursor (set_cursor p1 19%Z)) (l (set_cursor p1 19%Z)))
        with (syslogparser_ParseHostname truncated_line 19%Z 19%Z).
      rewrite Hhost. reflexivity.
    + cbn [parseTimestamp_loop tsFmts].
      change (slice (buff p1) (cursor p1)
                (int_add (len (list_byte_of_string "Jan 02 15:04:05")) (cursor p1)))
        with (@Ret (list byte) (list_byte_of_string "Jan 02 15:04:05")).
      cbn [mbind Go_bind bind]. change (location p1) with UTC.
      rewrite Hparse. reflexivity.
  - change (len (buff p2)) with 19%Z. exact Hc.
Qed.

(** With [ParsePriority] and [ParseHostname] above and a
    [time.ParseInLocation] that accepts exactly the text of its layout, the
    read is [buff[19]]. *)
Lemma Parse_truncated_line_panics_witness :
  Parse_line "<13>Jan 02 15:04:05" = Panic (IndexOutOfRange 19%Z 19%Z).
Proof.
  apply (Parse_truncated_line_panics ParsePriority ParseHostname
           accepts_layout_text tt tt tt (fun _ => 0%Z) (fun _ t => t)
           (newPriority 13%Z) [] 19%Z).
  - vm_compute. reflexivity.
  - vm_compute. reflexivity.
  - vm_compute. reflexivity.
  - lia.
Defined.

(** A complete line parses: hostname, tag and content are found. *)
Example Parse_complete_line :
  parts (Parse_line "<13>Jan 02 15:04:05 host tag: hello")
  = Some (list_byte_of_string "host", list_byte_of_string "tag",
          list_byte_of_string "hello", None).
Proof. vm_compute. reflexivity. Qed.

(** A line that ends with its hostname panics as well, and so does one that
    ends with the space after the timestamp. *)
Example Parse_header_only_lines :
  Parse_line "<13>Jan 02 15:04:05 host" = Panic (IndexOutOfRange 24%Z 24%Z)
  /\ Parse_line "<13>Jan 02 15:04:05 " = Panic (IndexOutOfRange 20%Z 20%Z).
Proof. split; vm_compute; reflexivity. Qed.

(** A line that is not a syslog line is refused with an error, no panic. *)
Example Parse_no_priority :
  parts (Parse_line "hello") = Some ([], [], [], Some ErrPriorityNoStart).
Proof. vm_compute. reflexivity. Qed.

(** ** More facts about the parser *)

Lemma byte_is_true (b c : byte) : byte_is b c = true -> b = c.
Proof. apply Byte.byte_dec_bl. Qed.

Lemma byte_is_false (b c : byte) : byte_is b c = false -> b <> c.
Proof. apply Byte.eqb_false. Qed.

Lemma skipn_nth_error {A : Type} (xs : list A) (n : nat) (x : A) :
  nth_error xs n = Some x -> skipn n xs = x :: skipn (Datatypes.S n) xs.
Proof.
  revert n. induction xs as [| y xs IH]; intros [| n]; simpl; try discriminate.
  - now intros [= ->].
  - intros H. now rewrite (IH n H).
Qed.

Lemma window_cons (bf : list byte) (c limit : Z) (b : byte) :
  (0 <= c < limit)%Z -> index bf c = Ret b ->
  window bf c limit = b :: window bf (c + 1) limit.
Proof.
  intros Hc Hb. unfold index in Hb.
  destruct ((0 <=? c)%Z && (c <? len bf)%Z); [| discriminate].
  destruct (nth_error bf (Z.to_nat c)) as [b' |] eqn:Hn; [| discriminate].
  injection Hb as ->. unfold window.
  rewrite (skipn_nth_error _ _ _ Hn).
  replace (Z.to_nat (limit - c)) with (Datatypes.S (Z.to_nat (limit - (c + 1))))
    by lia.
  replace (Z.to_nat (c + 1)) with (Datatypes.S (Z.to_nat c)) by lia.
  reflexivity.
Qed.

Lemma window_nil (bf : list byte) (c limit : Z) :
  (limit <= c)%Z -> window bf c limit = [].
Proof.
  intros H. unfold window. now replace (Z.to_nat (limit - c)) with 0%nat by lia.
Qed.

Lemma window_length (bf : list byte) (lo hi : Z) :
  (0 <= lo <= hi)%Z -> (hi <= len bf)%Z -> len (window bf lo hi) = (hi - lo)%Z.
Proof.
  intros H1 H2. unfold window, len in *.
  rewrite length_firstn, length_skipn. lia.
Qed.

(** The loop of [parseTag] collects the bytes up to the first space, bracket
    or colon, and moves the cursor forward, past what it collected and not
    past [limit]. *)
Lemma parseTag_loop_collects (bf : list byte) (limit : Z) :
  (limit <= len bf)%Z -> (limit <= int_max)%Z ->
  forall (fuel : nat) (c : Z) (tg : list byte) (enough : bool),
    (0 <= c)%Z -> (limit - c <= Z.of_nat fuel)%Z ->
    exists c',
      parseTag_loop fuel bf limit c tg enough
      = Ret (c', tg ++ (if enough then [] else tag_prefix (window bf c limit)))
      /\ (c <= c' <= Z.max c limit)%Z
      /\ (enough = false ->
          (len (tag_prefix (window bf c limit)) <= c' - c)%Z).
Proof.
  intros Hlim Hmax. induction fuel as [| fuel IH]; intros c tg enough Hc Hfuel.
  - cbn [parseTag_loop]. destruct (Z.ltb_spec c limit); [lia |].
    exists c. rewrite window_nil by lia. simpl.
    split; [now destruct enough; rewrite app_nil_r |].
    split; [lia |]. intros _. change (len (@nil byte)) with 0%Z. lia.
  - cbn [parseTag_loop]. destruct (Z.ltb_spec c limit) as [Hlt | Hge].
    + destruct (index_in_range bf c) as [b Hb]; [lia |].
      rewrite Hb. cbn [mbind Go_bind bind].
      assert (Hinc : int_add c 1 = (c + 1)%Z).
      { apply wrap64_id. unfold int_min. lia. }
      rewrite Hinc, (window_cons bf c limit b) by (lia || exact Hb).
      cbn [tag_prefix]. unfold ends_tag.
      destruct (byte_is b sp) eqn:Hsp.
      * exists (c + 1)%Z. simpl.
        split; [now destruct enough; rewrite app_nil_r |].
        split; [lia |]. intros _. change (len (@nil byte)) with 0%Z. lia.
      * cbn [orb].
        destruct (byte_is b lbracket || byte_is b rbracket || byte_is b colon)
          eqn:Hend; cbn [orb].
        -- destruct (IH (c + 1)%Z tg true) as (c' & Heq & Hb1 & _); [lia | lia |].
           exists c'. rewrite Heq.
           split; [now destruct enough |]. split; [lia |].
           intros _. change (len (@nil byte)) with 0%Z. lia.
        -- destruct enough.
           ++ destruct (IH (c + 1)%Z tg true) as (c' & Heq & Hb1 & _);
                [lia | lia |].
              exists c'. rewrite Heq. split; [reflexivity |].
              split; [lia | discriminate].
           ++ destruct (IH (c + 1)%Z (tg ++ [b]) false) as (c' & Heq & Hb1 & Hb2);
                [lia | lia |].
              exists c'. rewrite Heq, <- app_assoc.
              split; [reflexivity |]. split; [lia |].
              intros _. specialize (Hb2 eq_refl).
              unfold len in *. simpl. lia.
    + exists c. rewrite window_nil by lia. simpl.
      split; [now destruct enough; rewrite app_nil_r |].
      split; [lia |]. intros _. change (len (@nil byte)) with 0%Z. lia.
Qed.

(** The bound that [parseTag] computes through [float64] is
    [min(l, cursor + 32)], or lies at or before the cursor when the sum
    overflows. *)
Lemma parseTag_limit_exact (ln c : Z) :
  (0 <= ln <= 2 ^ 53)%Z -> (0 <= c <= int_max)%Z ->
  let limit := int_of_float64
                 (math_Min (float64_of_int ln) (float64_of_int (int_add c 32))) in
  limit = Z.min ln (c + 32) \/ (limit <= c /\ ln <= c)%Z.
Proof.
  intros Hln Hc. cbv zeta.
  rewrite (float64_of_int_exact ln) by lia.
  unfold math_Min, int_of_float64, int_add.
  assert (Hcases : (c + 32 <= 2 ^ 53 \/ 2 ^ 53 < c + 32 <= int_max
                    \/ int_max < c + 32 <= int_max + 2 ^ 63)%Z)
    by (unfold int_max in *; lia).
  destruct Hcases as [Hsmall | [Hmid | Hwrap]].
  - rewrite wrap64_id by (unfold int_min, int_max; lia).
    rewrite float64_of_int_exact by lia. left.
    unfold int_min, int_max.
    destruct (Z.leb_spec (- 2 ^ 63) (Z.min ln (c + 32)));
      destruct (Z.leb_spec (Z.min ln (c + 32)) (2 ^ 63 - 1)); simpl; lia.
  - rewrite wrap64_id by (unfold int_min; lia).
    pose proof (float64_of_int_large (c + 32)) as Hf. left.
    rewrite !Z.min_l by lia. unfold int_min, int_max.
    destruct (Z.leb_spec (- 2 ^ 63) ln);
      destruct (Z.leb_spec ln (2 ^ 63 - 1)); simpl; lia.
  - right. pose proof (wrap64_high _ Hwrap).
    pose proof (float64_of_int_neg (wrap64 (c + 32))).
    unfold int_min, int_max in *.
    destruct (_ && _); lia.
Qed.

(** What [parseTag] returns, in full. *)
Lemma parseTag_result {Time Location : Type} (p : Parser Time Location) :
  l p = len (buff p) ->
  (len (buff p) <= 2 ^ 53)%Z ->
  (0 <= cursor p <= int_max)%Z ->
  exists p',
    parseTag p = Ret (p', (tag_prefix (tag_window p), None))
    /\ moved p p'
    /\ (cursor p <= cursor p' <= Z.max (cursor p) (l p))%Z
    /\ (cursor p' - cursor p <= 32)%Z
    /\ (len (tag_prefix (tag_window p)) <= cursor p' - cursor p)%Z.
Proof.
  intros Hl Hlen Hc. unfold parseTag.
  pose proof (parseTag_limit (l p) (cursor p)) as Hlim.
  pose proof (parseTag_limit_exact (l p) (cursor p)) as Hex.
  cbv zeta in Hlim, Hex.
  set (limit := int_of_float64 _) in *.
  destruct Hlim as [Hlim1 Hlim2]; [unfold len in *; lia | lia |].
  assert (Hwin : window (buff p) (cursor p) limit = tag_window p).
  { unfold tag_window. destruct Hex as [-> | [H1 H2]];
      [unfold len in *; lia | lia | reflexivity |].
    rewrite !window_nil by lia. reflexivity. }
  destruct (parseTag_loop_collects (buff p) limit) with
    (fuel := Z.to_nat (limit - cursor p)) (c := cursor p)
    (tg := @nil byte) (enough := false) as (c' & Heq & Hb1 & Hb2);
    [lia | unfold int_max; lia | lia | lia |].
  specialize (Hb2 eq_refl). rewrite Hwin in Heq, Hb2. simpl in Heq.
  rewrite Heq. cbn [mbind Go_bind bind].
  eexists. split; [reflexivity |].
  destruct (Z.eqb_spec (len (tag_prefix (tag_window p))) 0) as [Hz | Hnz].
  - unfold moved. destruct p; cbn in *.
    repeat split; try reflexivity; lia.
  - unfold moved. destruct p; cbn in *.
    repeat split; try reflexivity; lia.
Qed.

(** X1. [parseTag] returns the longest prefix of the bytes it looks at (the
    next 32, or what is left of the buffer) that holds no space, bracket or
    colon: the tag is a prefix of that window, none of its bytes ends a tag,
    and what follows it in the window, if anything, starts with a byte that
    does. *)
Theorem parseTag_longest_clean_prefix {Time Location : Type}
    (p : Parser Time Location) :
  l p = len (buff p) ->
  (len (buff p) <= 2 ^ 53)%Z ->
  (0 <= cursor p <= int_max)%Z ->
  exists p' tg rest,
    parseTag p = Ret (p', (tg, None))
    /\ tag_window p = tg ++ rest
    /\ Forall (fun b => ends_tag b = false) tg
    /\ match rest with [] => True | b :: _ => ends_tag b = true end.
Proof.
  intros Hl Hlen Hc.
  destruct (parseTag_result p Hl Hlen Hc) as (p' & Heq & _).
  assert (Hsplit : forall w : list byte, exists rest,
    w = tag_prefix w ++ rest
    /\ Forall (fun b => ends_tag b = false) (tag_prefix w)
    /\ match rest with [] => True | b :: _ => ends_tag b = true end).
  { induction w as [| b w IH]; simpl.
    - exists []. auto.
    - destruct (ends_tag b) eqn:Hb.
      + exists (b :: w). auto.
      + destruct IH as (rest & Hw & Hall & Hrest). exists rest.
        split; [simpl; congruence |]. split; [| exact Hrest].
        constructor; assumption. }
  destruct (Hsplit (tag_window p)) as (rest & Hw & Hall & Hrest).
  exists p', (tag_prefix (tag_window p)), rest. auto.
Qed.

Lemma parseTag_longest_clean_prefix_witness :
  exists p' tg rest,
    parseTag (mkParser (list_byte_of_string "su[42]: x") 0 9 (mkPriority 0 0 0) 0
                       (mkHeader tt []) (mkMessage [] []) tt [])
      = Ret (p', (tg, None))
    /\ list_byte_of_string "su[42]: x" = tg ++ rest
    /\ Forall (fun b => ends_tag b = false) tg
    /\ match rest with [] => True | b :: _ => ends_tag b = true end.
Proof.
  apply (parseTag_longest_clean_prefix
           (mkParser (list_byte_of_string "su[42]: x") 0 9 (mkPriority 0 0 0) 0
                     (mkHeader tt []) (mkMessage [] []) tt [])).
  - reflexivity.
  - vm_compute. discriminate.
  - vm_compute. split; discriminate.
Defined.

(** X2. [parseTag] changes nothing of the parser but the cursor, which it
    moves forward by at most 32 and never past the end of the buffer (unless
    it was there already), and by at least the length of the tag. *)
Theorem parseTag_cursor_moves_forward {Time Location : Type}
    (p : Parser Time Location) :
  l p = len (buff p) ->
  (len (buff p) <= 2 ^ 53)%Z ->
  (0 <= cursor p <= int_max)%Z ->
  exists p' tg,
    parseTag p = Ret (p', (tg, None))
    /\ p' = set_cursor p (cursor p')
    /\ (cursor p <= cursor p' <= Z.max (cursor p) (l p))%Z
    /\ (len tg <= cursor p' - cursor p <= 32)%Z.
Proof.
  intros Hl Hlen Hc.
  destruct (parseTag_result p Hl Hlen Hc) as (p' & Heq & Hmv & Hb & H32 & Htg).
  exists p', (tag_prefix (tag_window p)). auto.
Qed.

Lemma parseTag_cursor_moves_forward_witness :
  exists p' tg,
    parseTag (mkParser (list_byte_of_string "su[42]: x") 0 9 (mkPriority 0 0 0) 0
                       (mkHeader tt []) (mkMessage [] []) tt [])
      = Ret (p', (tg, None))
    /\ p' = set_cursor (mkParser (list_byte_of_string "su[42]: x") 0 9
                                 (mkPriority 0 0 0) 0 (mkHeader tt [])
                                 (mkMessage [] []) tt []) (cursor p')
    /\ (0 <= cursor p' <= Z.max 0 9)%Z
    /\ (len tg <= cursor p' - 0 <= 32)%Z.
Proof.
  apply (parseTag_cursor_moves_forward
           (mkParser (list_byte_of_string "su[42]: x") 0 9 (mkPriority 0 0 0) 0
                     (mkHeader tt []) (mkMessage [] []) tt [])).
  - reflexivity.
  - vm_compute. discriminate.
  - vm_compute. split; discriminate.
Defined.

(** *** [parseContent] *)

Lemma trim_left_split (s : list byte) :
  exists pre,
    s = pre ++ trim_left s
    /\ Forall (fun b => b = sp) pre
    /\ head (trim_left s) <> Some sp.
Proof.
  induction s as [| b s IH]; simpl.
  - exists []. repeat split; [constructor | discriminate].
  - destruct (byte_is b sp) eqn:Hb.
    + apply byte_is_true in Hb. subst b.
      destruct IH as (pre & Hs & Hall & Hhd).
      exists (sp :: pre). simpl. split; [congruence |].
      split; [constructor; [reflexivity | exact Hall] | exact Hhd].
    + apply byte_is_false in Hb. exists []. simpl.
      split; [reflexivity |]. split; [constructor |]. congruence.
Qed.

(** [bytes.Trim(s, " ")] cuts spaces, and only spaces, at both ends. *)
Lemma bytes_Trim_space_split (s : list byte) :
  exists pre post,
    s = pre ++ bytes_Trim_space s ++ post
    /\ Forall (fun b => b = sp) pre
    /\ Forall (fun b => b = sp) post
    /\ head (bytes_Trim_space s) <> Some sp
    /\ last (bytes_Trim_space s) <> Some sp.
Proof.
  unfold bytes_Trim_space.
  destruct (trim_left_split s) as (pre & Hs & Hpre & Hhd).
  destruct (trim_left_split (rev (trim_left s))) as (q & Hr & Hq & Hhu).
  set (t := trim_left s) in *. set (u := trim_left (rev t)) in *.
  assert (Ht : t = rev u ++ rev q).
  { rewrite <- (rev_involutive t), Hr. apply rev_app_distr. }
  exists pre, (rev q). split; [now rewrite <- Ht |].
  split; [exact Hpre |]. split.
  { apply Forall_forall. intros b Hb. apply list_elem_of_In, in_rev in Hb.
    rewrite Forall_forall in Hq. apply Hq. now apply list_elem_of_In. }
  split.
  - destruct (rev u) as [| b ru] eqn:Hru; [discriminate |].
    rewrite Ht in Hhd. exact Hhd.
  - destruct u as [| b u']; [discriminate |]. simpl.
    rewrite last_snoc. exact Hhu.
Qed.

(** What [parseContent] returns, in full. *)
Lemma parseContent_result {Time Location : Type} (p : Parser Time Location) :
  l p = len (buff p) ->
  (len (buff p) <= int_max)%Z ->
  (0 <= cursor p)%Z ->
  exists ct pre post,
    parseContent p
    = Ret (set_cursor p (cursor p + len ct), (ct, Some ErrEOL))
    /\ window (buff p) (cursor p) (l p) = pre ++ ct ++ post
    /\ Forall (fun b => b = sp) pre
    /\ Forall (fun b => b = sp) post
    /\ head ct <> Some sp
    /\ last ct <> Some sp.
Proof.
  intros Hl Hlen Hc. unfold parseContent.
  destruct (Z.gtb_spec (cursor p) (l p)) as [Hpast | Hin].
  - exists [], [], []. rewrite window_nil by lia.
    change (len (@nil byte)) with 0%Z. rewrite Z.add_0_r.
    repeat split; try constructor; try discriminate.
    destruct p; reflexivity.
  - unfold slice.
    destruct (Z.leb_spec 0 (cursor p)); [| lia].
    destruct (Z.leb_spec (cursor p) (l p)); [| lia].
    destruct (Z.leb_spec (l p) (len (buff p))); [| lia].
    cbn [andb mbind Go_bind bind].
    fold (window (buff p) (cursor p) (l p)).
    destruct (bytes_Trim_space_split (window (buff p) (cursor p) (l p)))
      as (pre & post & Hw & Hpre & Hpost & Hhd & Hlast).
    exists (bytes_Trim_space (window (buff p) (cursor p) (l p))), pre, post.
    split; [| auto].
    assert (Hlenw : (len (bytes_Trim_space (window (buff p) (cursor p) (l p)))
                     <= l p - cursor p)%Z).
    { rewrite <- (window_length (buff p) (cursor p) (l p)) by lia.
      rewrite Hw at 2. unfold len. rewrite !length_app. lia. }
    unfold int_add. rewrite wrap64_id; [reflexivity |].
    unfold int_min, len in *. lia.
Qed.

(** X3. [parseContent] always returns [ErrEOL] and never fails. The content
    is what is left of the buffer with the spaces at both ends cut off, and
    only spaces; only the cursor changes, and it moves forward by the length
    of the content (the spaces cut off are not counted). Past the end of the
    buffer the content is empty. *)
Theorem parseContent_trims {Time Location : Type} (p : Parser Time Location) :
  l p = len (buff p) ->
  (len (buff p) <= int_max)%Z ->
  (0 <= cursor p)%Z ->
  exists ct pre post,
    parseContent p
    = Ret (set_cursor p (cursor p + len ct), (ct, Some ErrEOL))
    /\ window (buff p) (cursor p) (l p) = pre ++ ct ++ post
    /\ Forall (fun b => b = sp) pre
    /\ Forall (fun b => b = sp) post
    /\ head ct <> Some sp
    /\ last ct <> Some sp.
Proof. intros Hl Hlen Hc. exact (parseContent_result p Hl Hlen Hc). Qed.

Lemma parseContent_trims_witness :
  exists ct pre post,
    parseContent (mkParser (list_byte_of_string "ab  hello  ") 2 11
                           (mkPriority 0 0 0) 0 (mkHeader tt [])
                           (mkMessage [] []) tt [])
    = Ret (set_cursor (mkParser (list_byte_of_string "ab  hello  ") 2 11
                                (mkPriority 0 0 0) 0 (mkHeader tt [])
                                (mkMessage [] []) tt []) (2 + len ct),
           (ct, Some ErrEOL))
    /\ list_byte_of_string "  hello  " = pre ++ ct ++ post
    /\ Forall (fun b => b = sp) pre
    /\ Forall (fun b => b = sp) post
    /\ head ct <> Some sp
    /\ last ct <> Some sp.
Proof.
  apply (parseContent_trims
           (mkParser (list_byte_of_string "ab  hello  ") 2 11 (mkPriority 0 0 0)
                     0 (mkHeader tt []) (mkMessage [] []) tt [])).
  - reflexivity.
  - vm_compute. discriminate.
  - vm_compute. discriminate.
Defined.

(** *** [parseTimestamp] and [Parse] *)

Lemma moved_refl {Time Location : Type} (p : Parser Time Location) : moved p p.
Proof. unfold moved. destruct p; reflexivity. Qed.

Lemma moved_set_cursor {Time Location : Type} (p : Parser Time Location) c :
  moved p (set_cursor p c).
Proof. unfold moved. destruct p; reflexivity. Qed.

Lemma moved_trans {Time Location : Type} (p1 p2 p3 : Parser Time Location) :
  moved p1 p2 -> moved p2 p3 -> moved p1 p3.
Proof. unfold moved. intros H12 H23. rewrite H23, H12. now destruct p1. Qed.

Lemma moved_fields {Time Location : Type} (p p' : Parser Time Location) :
  moved p p' ->
  buff p' = buff p /\ l p' = l p /\ location p' = location p
  /\ hostname p' = hostname p /\ priority p' = priority p
  /\ version p' = version p /\ hdr p' = hdr p /\ message p' = message p.
Proof. unfold moved. intros ->. now destruct p. Qed.

Section MoreParseFacts.

Context {Time Location : Type}.
Variable syslogparser_ParsePriority :
  list byte -> Z -> Z -> Go (Priority * error * Z).
Variable syslogparser_ParseHostname :
  list byte -> Z -> Z -> Go (list byte * error * Z).
Variable time_ParseInLocation : list byte -> list byte -> Location -> Time * bool.
Variable zeroTime : Time.
Variable time_Now : Time.
Variable Year : Time -> Z.
Variable Date_with_year : Z -> Time -> Time.

Local Abbreviation Parser := (Parser Time Location).
Local Abbreviation parsePriority := (parsePriority syslogparser_ParsePriority).
Local Abbreviation parseTimestamp :=
  (parseTimestamp time_ParseInLocation zeroTime time_Now Year Date_with_year).
Local Abbreviation parseHostname := (parseHostname syslogparser_ParseHostname).
Local Abbreviation parseHeader :=
  (parseHeader syslogparser_ParseHostname time_ParseInLocation zeroTime
               time_Now Year Date_with_year).
Local Abbreviation Parse :=
  (Parse syslogparser_ParsePriority syslogparser_ParseHostname
         time_ParseInLocation zeroTime time_Now Year Date_with_year).

(** Whatever they return, the parsing functions change the cursor only. *)
Lemma skip_space_guarded_moved (p p' : Parser) :
  skip_space_guarded p = Ret p' ->
  moved p p' /\ (cursor p' = cursor p \/ cursor p' = int_add (cursor p) 1).
Proof.
  unfold skip_space_guarded. destruct (cursor p <? l p)%Z.
  - destruct (index (buff p) (cursor p)) as [b | |]; try discriminate.
    cbn [mbind Go_bind bind]. destruct (byte_is b sp); intros [= <-].
    + split; [apply moved_set_cursor |]. right. now destruct p.
    + split; [apply moved_refl | now left].
  - intros [= <-]. split; [apply moved_refl | now left].
Qed.

Lemma parseTimestamp_moved (p p' : Parser) r :
  parseTimestamp p = Ret (p', r) -> moved p p'.
Proof.
  unfold Rfc3164.parseTimestamp.
  destruct (parseTimestamp_loop _ _ _ _ _) as [[[found n] ts] | |];
    try discriminate.
  cbn [mbind Go_bind bind]. destruct (negb found).
  - destruct (skip_space_guarded _) as [p1 | |] eqn:Hs; try discriminate.
    cbn [mbind Go_bind bind]. intros [= <- _].
    apply skip_space_guarded_moved in Hs. destruct Hs as [Hs _].
    eapply moved_trans; [apply moved_set_cursor | exact Hs].
  - destruct (skip_space_guarded _) as [p1 | |] eqn:Hs; try discriminate.
    cbn [mbind Go_bind bind]. intros [= <- _].
    apply skip_space_guarded_moved in Hs. destruct Hs as [Hs _].
    eapply moved_trans; [apply moved_set_cursor | exact Hs].
Qed.

Lemma parseHostname_moved (p p' : Parser) r :
  parseHostname p = Ret (p', r) -> moved p p'.
Proof.
  unfold Rfc3164.parseHostname. destruct (hostname p).
  - destruct (syslogparser_ParseHostname _ _ _) as [[[h e] c] | |];
      try discriminate.
    cbn [mbind Go_bind bind]. intros [= <- _]. apply moved_set_cursor.
  - intros [= <- _]. apply moved_refl.
Qed.

Lemma parseHeader_moved (p p' : Parser) r :
  parseHeader p = Ret (p', r) -> moved p p'.
Proof.
  unfold Rfc3164.parseHeader.
  destruct (parseTimestamp p) as [[p1 [ts e]] | |] eqn:Hts; try discriminate.
  apply parseTimestamp_moved in Hts. cbn [mbind Go_bind bind].
  destruct e.
  - now intros [= <- _].
  - destruct (parseHostname p1) as [[p2 [h e]] | |] eqn:Hh; try discriminate.
    apply parseHostname_moved in Hh. cbn [mbind Go_bind bind].
    destruct e; intros [= <- _]; eapply moved_trans; eassumption.
Qed.

Lemma parseTag_moved (p p' : Parser) r :
  parseTag p = Ret (p', r) -> moved p p'.
Proof.
  unfold parseTag.
  destruct (parseTag_loop _ _ _ _ _ _) as [[c tg] | |]; try discriminate.
  cbn [mbind Go_bind bind]. intros [= <- _].
  destruct (len tg =? 0)%Z; unfold moved; now destruct p.
Qed.

Lemma parseContent_moved (p p' : Parser) r :
  parseContent p = Ret (p', r) -> moved p p'.
Proof.
  unfold parseContent. destruct (cursor p >? l p)%Z.
  - intros [= <- _]. apply moved_refl.
  - destruct (slice _ _ _); try discriminate.
    cbn [mbind Go_bind bind]. intros [= <- _]. apply moved_set_cursor.
Qed.

Lemma parsemessage_moved (p p' : Parser) r :
  parsemessage p = Ret (p', r) -> moved p p'.
Proof.
  unfold parsemessage.
  destruct (parseTag p) as [[p1 [tg e]] | |] eqn:Ht; try discriminate.
  apply parseTag_moved in Ht. cbn [mbind Go_bind bind]. destruct e.
  - now intros [= <- _].
  - destruct (parseContent p1) as [[p2 [ct e]] | |] eqn:Hc; try discriminate.
    apply parseContent_moved in Hc. cbn [mbind Go_bind bind].
    destruct (negb (is_ErrEOL e)); intros [= <- _];
      eapply moved_trans; eassumption.
Qed.

(** [parsemessage] ends in [ErrEOL] whenever it returns. *)
Lemma parsemessage_ErrEOL (p p' : Parser) msg e :
  parsemessage p = Ret (p', (msg, e)) -> e = Some ErrEOL.
Proof.
  unfold parsemessage.
  destruct (parseTag p) as [[p1 [tg e1]] | |] eqn:Ht; try discriminate.
  cbn [mbind Go_bind bind].
  assert (e1 = None) as ->.
  { unfold parseTag in Ht.
    destruct (parseTag_loop _ _ _ _ _ _) as [[c tg'] | |]; try discriminate.
    cbn [mbind Go_bind bind] in Ht. now injection Ht as _ _ <-. }
  destruct (parseContent p1) as [[p2 [ct e2]] | |] eqn:Hc; try discriminate.
  cbn [mbind Go_bind bind].
  assert (e2 = Some ErrEOL) as ->.
  { unfold parseContent in Hc. destruct (cursor p1 >? l p1)%Z.
    - now injection Hc as _ _ <-.
    - destruct (slice _ _ _); try discriminate.
      cbn [mbind Go_bind bind] in Hc. now injection Hc as _ _ <-. }
  simpl. now intros [= _ _ <-].
Qed.



Lemma parsePriority_moved (p p' : Parser) r :
  parsePriority p = Ret (p', r) -> moved p p'.
Proof.
  unfold Rfc3164.parsePriority.
  destruct (syslogparser_ParsePriority _ _ _) as [[[pri e] c] | |];
    try discriminate.
  cbn [mbind Go_bind bind]. intros [= <- _]. apply moved_set_cursor.
Qed.

Lemma skip_space_unguarded_moved (p p' : Parser) :
  skip_space_unguarded p = Ret p' -> moved p p'.
Proof.
  unfold skip_space_unguarded.
  destruct (index (buff p) (cursor p)) as [b | |]; try discriminate.
  cbn [mbind Go_bind bind]. destruct (byte_is b sp); intros [= <-].
  - apply moved_set_cursor.
  - apply moved_refl.
Qed.

(** What [Parse] returns once the header has parsed and left the cursor
    inside the buffer. *)
Lemma Parse_inside_result (p p1 p2 : Parser) pri h :
  parsePriority p = Ret (p1, (pri, None)) ->
  parseHeader p1 = Ret (p2, (h, None)) ->
  l p2 = len (buff p2) ->
  (len (buff p2) <= 2 ^ 53)%Z ->
  (0 <= cursor p2 < l p2)%Z ->
  exists p' tg ct,
    Parse p = Ret (p', None)
    /\ DumpParseResult p'
       = mkParseResult (timestamp h) (hdr_hostname h) tg ct (P pri) (F pri)
                       (S pri)
    /\ (len tg <= 32)%Z
    /\ head ct <> Some sp /\ last ct <> Some sp
    /\ version p' = NO_VERSION
    /\ buff p' = buff p.
Proof.
  intros Hpri Hhdr Hl Hlen Hc.
  pose proof (parsePriority_moved _ _ _ Hpri) as Hm1.
  pose proof (parseHeader_moved _ _ _ Hhdr) as Hm2.
  unfold Rfc3164.Parse. rewrite Hpri. cbn [mbind Go_bind bind].
  rewrite Hhdr. cbn [mbind Go_bind bind].
  destruct (index_in_range (buff p2) (cursor p2)) as [b Hb]; [lia |].
  unfold skip_space_unguarded. rewrite Hb. cbn [mbind Go_bind bind].
  set (p3 := if byte_is b sp then set_cursor p2 (int_add (cursor p2) 1) else p2).
  assert (H3 : moved p2 p3 /\ (0 <= cursor p3 <= l p2)%Z).
  { subst p3. destruct (byte_is b sp).
    - split; [apply moved_set_cursor |]. destruct p2; cbn in *.
      unfold int_add. rewrite wrap64_id by (unfold int_min, int_max, len in *; lia).
      lia.
    - split; [apply moved_refl | lia]. }
  destruct H3 as [Hm3 Hc3].
  destruct (moved_fields _ _ Hm3) as (Hb3 & Hl3 & _).
  destruct (parseTag_result p3) as (p4 & Ht & Hm4 & Hc4 & _ & Htg);
    [congruence | congruence | unfold int_max, len in *; lia |].
  destruct (moved_fields _ _ Hm4) as (Hb4 & Hl4 & _).
  destruct (parseContent_result p4) as (ct & pre & post & Hct & _ & _ & _ & Hhd & Hlast);
    [congruence | unfold int_max, len in *; rewrite Hb4, Hb3; lia | lia |].
  unfold parsemessage. rewrite Ht. cbn [mbind Go_bind bind].
  rewrite Hct. cbn [mbind Go_bind bind is_ErrEOL negb].
  eexists _, (tag_prefix (tag_window p3)), ct.
  split; [reflexivity |]. cbn.
  split; [reflexivity |].
  split.
  { assert (cursor p4 - cursor p3 <= 32)%Z; [| lia].
    destruct (parseTag_result p3) as (p4' & Ht' & _ & _ & H32 & _);
      [congruence | congruence | unfold int_max, len in *; lia |].
    rewrite Ht in Ht'. injection Ht' as <-. exact H32. }
  split; [exact Hhd |]. split; [exact Hlast |]. split; [reflexivity |].
  destruct (moved_fields _ _ Hm1) as (Hb1 & _).
  destruct (moved_fields _ _ Hm2) as (Hb2 & _).
  destruct p4; cbn in *. congruence.
Qed.

(** X5. Once the priority and the header have parsed and the cursor is
    inside the buffer, [Parse] cannot fail: it returns [nil], and what
    [DumpParseResult] then reports is the parsed priority with its facility
    and severity, the timestamp and hostname of the header, a tag of at most
    32 bytes and a content with no space at either end. The version is
    [NO_VERSION] and the buffer is the one given. *)
Theorem Parse_succeeds_inside_buffer (p p1 p2 : Parser) pri h :
  parsePriority p = Ret (p1, (pri, None)) ->
  parseHeader p1 = Ret (p2, (h, None)) ->
  l p2 = len (buff p2) ->
  (len (buff p2) <= 2 ^ 53)%Z ->
  (0 <= cursor p2 < l p2)%Z ->
  exists p' tg ct,
    Parse p = Ret (p', None)
    /\ DumpParseResult p'
       = mkParseResult (timestamp h) (hdr_hostname h) tg ct (P pri) (F pri)
                       (S pri)
    /\ (len tg <= 32)%Z
    /\ head ct <> Some sp /\ last ct <> Some sp
    /\ version p' = NO_VERSION
    /\ buff p' = buff p.
Proof.
  intros Hpri Hhdr Hl Hlen Hc.
  exact (Parse_inside_result p p1 p2 pri h Hpri Hhdr Hl Hlen Hc).
Qed.


(** X6. Whatever [Parse] returns, it has not touched the buffer, its length,
    the location or the preset hostname; and when it returns an error it has
    stored nothing: priority, version, header and message are as they were
    before the call, only the cursor has moved. *)
Theorem Parse_keeps_input (p p' : Parser) (e : error) :
  Parse p = Ret (p', e) ->
  buff p' = buff p /\ l p' = l p /\ location p' = location p
  /\ hostname p' = hostname p
  /\ (e <> None -> p' = set_cursor p (cursor p')).
Proof.
  unfold Rfc3164.Parse.
  destruct (parsePriority p) as [[p1 [pri e1]] | |] eqn:Hpri; try discriminate.
  pose proof (parsePriority_moved _ _ _ Hpri) as Hm1.
  cbn [mbind Go_bind bind].
  assert (Hdone : forall q, moved p q ->
    buff q = buff p /\ l q = l p /\ location q = location p
    /\ hostname q = hostname p /\ (e <> None -> q = set_cursor p (cursor q))).
  { intros q Hq. destruct (moved_fields _ _ Hq) as (? & ? & ? & ? & _). auto. }
  destruct e1; [intros [= <- <-]; now apply Hdone |].
  destruct (parseHeader p1) as [[p2 [h e2]] | |] eqn:Hhdr; try discriminate.
  pose proof (parseHeader_moved _ _ _ Hhdr) as Hm2.
  cbn [mbind Go_bind bind].
  destruct e2; [intros [= <- <-]; apply Hdone; eapply moved_trans; eassumption |].
  destruct (skip_space_unguarded p2) as [p3 | |] eqn:Hs; try discriminate.
  pose proof (skip_space_unguarded_moved _ _ Hs) as Hm3.
  cbn [mbind Go_bind bind].
  destruct (parsemessage p3) as [[p4 [msg e4]] | |] eqn:Hmsg; try discriminate.
  pose proof (parsemessage_moved _ _ _ Hmsg) as Hm4.
  cbn [mbind Go_bind bind].
  assert (Hm : moved p p4).
  { eapply moved_trans; [| exact Hm4]. eapply moved_trans; [| exact Hm3].
    eapply moved_trans; eassumption. }
  destruct (negb (is_ErrEOL e4)); [intros [= <- <-]; now apply Hdone |].
  intros [= <- <-]. destruct (moved_fields _ _ Hm) as (? & ? & ? & ? & _).
  cbn. repeat split; try assumption. congruence.
Qed.

(** X7. With a hostname preset through [Hostname], [Parse] does not call
    [ParseHostname]: its result is the same whatever that function is, the
    hostname of the header is the preset one, and the bytes of the line are
    left to the tag and the content. *)
Theorem Parse_preset_hostname (p : Parser)
    (other_ParseHostname : list byte -> Z -> Z -> Go (list byte * error * Z)) :
  hostname p <> [] ->
  Parse p
  = Rfc3164.Parse syslogparser_ParsePriority other_ParseHostname
                  time_ParseInLocation zeroTime time_Now Year Date_with_year p
  /\ (forall p', Parse p = Ret (p', None) ->
                 hdr_hostname (hdr p') = hostname p).
Proof.
  intros Hne.
  assert (Hhdr : forall q : Parser,
    hostname q <> [] ->
    Rfc3164.parseHeader other_ParseHostname time_ParseInLocation zeroTime
                        time_Now Year Date_with_year q
    = parseHeader q
    /\ (forall q' h, parseHeader q = Ret (q', (h, None)) ->
                     hdr_hostname h = hostname q)).
  { intros q Hq. unfold Rfc3164.parseHeader.
    destruct (parseTimestamp q) as [[q1 [ts e]] | |] eqn:Hts;
      cbn [mbind Go_bind bind]; try (split; [reflexivity | discriminate]).
    destruct e; [split; [reflexivity | discriminate] |].
    pose proof (parseTimestamp_moved _ _ _ Hts) as Hm.
    destruct (moved_fields _ _ Hm) as (_ & _ & _ & Hh & _).
    assert (Hq1 : hostname q1 <> []) by congruence.
    unfold Rfc3164.parseHostname.
    destruct (hostname q1) as [| b hs] eqn:Hhq; [contradiction |].
    cbn [mbind Go_bind bind]. split; [reflexivity |].
    intros q' h [= _ <-]. simpl. congruence. }
  unfold Rfc3164.Parse.
  destruct (parsePriority p) as [[p1 [pri e1]] | |] eqn:Hpri;
    cbn [mbind Go_bind bind]; try (split; [reflexivity | discriminate]).
  destruct e1; [split; [reflexivity | discriminate] |].
  pose proof (parsePriority_moved _ _ _ Hpri) as Hm1.
  destruct (moved_fields _ _ Hm1) as (_ & _ & _ & Hh1 & _).
  destruct (Hhdr p1) as [Heq Hpre]; [congruence |].
  rewrite Heq. split; [reflexivity |]. intros p'.
  destruct (parseHeader p1) as [[p2 [h e2]] | |] eqn:Hh2; try discriminate.
  cbn [mbind Go_bind bind]. destruct e2; [discriminate |].
  specialize (Hpre _ _ eq_refl).
  destruct (skip_space_unguarded p2) as [p3 | |]; try discriminate.
  cbn [mbind Go_bind bind].
  destruct (parsemessage p3) as [[p4 [msg e4]] | |] eqn:Hmsg; try discriminate.
  pose proof (parsemessage_ErrEOL _ _ _ _ Hmsg) as ->.
  cbn [mbind Go_bind bind is_ErrEOL negb].
  intros [= <-]. simpl. congruence.
Qed.

End MoreParseFacts.


Definition complete_line : Parser unit unit :=
  NewParser tt tt (list_byte_of_string "<13>Jan 02 15:04:05 host tag: hello").

Definition preset_line : Parser unit unit :=
  set_Hostname complete_line (list_byte_of_string "relay").


Lemma Parse_succeeds_inside_buffer_witness :
  exists p' tg ct,
    Parse ParsePriority ParseHostname accepts_layout_text tt tt (fun _ => 0%Z)
          (fun _ t => t) complete_line = Ret (p', None)
    /\ DumpParseResult p'
       = mkParseResult tt (list_byte_of_string "host") tg ct 13 1 5
    /\ (len tg <= 32)%Z
    /\ head ct <> Some sp /\ last ct <> Some sp
    /\ version p' = NO_VERSION
    /\ buff p' = buff complete_line.
Proof.
  apply (Parse_succeeds_inside_buffer ParsePriority ParseHostname
           accepts_layout_text tt tt (fun _ => 0%Z) (fun _ t => t)
           complete_line (set_cursor complete_line 4)
           (set_cursor complete_line 24) (newPriority 13)
           (mkHeader tt (list_byte_of_string "host"))).
  - vm_compute. reflexivity.
  - vm_compute. reflexivity.
  - reflexivity.
  - vm_compute. discriminate.
  - vm_compute. split; [discriminate | reflexivity].
Defined.



Lemma Parse_keeps_input_witness :
  buff (NewParser tt tt (list_byte_of_string "hello")) = list_byte_of_string "hello"
  /\ l (NewParser tt tt (list_byte_of_string "hello")) = 5%Z
  /\ location (NewParser tt tt (list_byte_of_string "hello")) = tt
  /\ hostname (NewParser tt tt (list_byte_of_string "hello")) = []
  /\ (Some ErrPriorityNoStart <> None ->
      NewParser tt tt (list_byte_of_string "hello")
      = set_cursor (NewParser tt tt (list_byte_of_string "hello")) 0).
Proof.
  apply (Parse_keeps_input ParsePriority ParseHostname accepts_layout_text tt tt
           (fun _ => 0%Z) (fun _ t => t)
           (NewParser tt tt (list_byte_of_string "hello"))
           (NewParser tt tt (list_byte_of_string "hello"))
           (Some ErrPriorityNoStart)).
  vm_compute. reflexivity.
Defined.

Lemma Parse_preset_hostname_witness :
  Parse ParsePriority ParseHostname accepts_layout_text tt tt (fun _ => 0%Z)
        (fun _ t => t) preset_line
  = Parse ParsePriority (fun _ _ _ => OutOfFuel) accepts_layout_text tt tt
          (fun _ => 0%Z) (fun _ t => t) preset_line
  /\ (forall p',
        Parse ParsePriority ParseHostname accepts_layout_text tt tt
              (fun _ => 0%Z) (fun _ t => t) preset_line = Ret (p', None) ->
        hdr_hostname (hdr p') = hostname preset_line).
Proof.
  apply (Parse_preset_hostname ParsePriority ParseHostname accepts_layout_text
           tt tt (fun _ => 0%Z) (fun _ t => t) preset_line
           (fun _ _ _ => OutOfFuel)).
  vm_compute. discriminate.
Defined.

(** With the hostname preset, the hostname in the line becomes the tag. *)
Example Parse_preset_line :
  parts (Parse ParsePriority ParseHostname accepts_layout_text tt tt
               (fun _ => 0%Z) (fun _ t => t) preset_line)
  = Some (list_byte_of_string "relay", list_byte_of_string "host",
          list_byte_of_string "tag: hello", None).
Proof. vm_compute. reflexivity. Qed.

(** X8. [Dump] and [DumpParseResult] report the same seven values: the map
    of [Dump] has the keys timestamp, hostname, tag, content, priority,
    facility and severity and no other, and under each key the value of the
    field of that name. *)
Theorem Dump_agrees_with_DumpParseResult {Time Location : Type}
    (p : Parser Time Location) :
  dom (Dump p)
  = ({[ "timestamp"; "hostname"; "tag"; "content"; "priority"; "facility";
        "severity" ]} : gset string)
  /\ Dump p !! "timestamp" = Some (TimeValue (Timestamp (DumpParseResult p)))
  /\ Dump p !! "hostname" = Some (StringValue (Hostname (DumpParseResult p)))
  /\ Dump p !! "tag" = Some (StringValue (Tag (DumpParseResult p)))
  /\ Dump p !! "content" = Some (StringValue (Content (DumpParseResult p)))
  /\ Dump p !! "priority" = Some (IntValue (PriorityValue (DumpParseResult p)))
  /\ Dump p !! "facility" = Some (IntValue (Facility (DumpParseResult p)))
  /\ Dump p !! "severity" = Some (IntValue (Severity (DumpParseResult p))).
Proof.
  split.
  - unfold Dump. rewrite !dom_insert_L, dom_empty_L. set_solver.
  - unfold Dump, DumpParseResult. cbn [Timestamp Hostname Tag Content
      PriorityValue Facility Severity].
    repeat split;
      repeat (first [ rewrite lookup_insert_eq; reflexivity
                    | rewrite lookup_insert_ne by discriminate ]).
Qed.

End Rfc3164.

(* ===================================================================== *)
(** * Metric constants (MetricConstants.h)                                *)
(* ===================================================================== *)

Module MetricConstants.

(** The header declares every label key, label value and metric key of the
    agent as an [extern const std::string]; the strings themselves are
    defined in translation units that are not among the sources. A key is
    therefore identified here by its declared name. *)

(** The five parts of the header, as its banner comments name them. *)
Inductive Category : Type := Agent | Pipeline | Plugin | Component | Runner.

(** Whether a constant is a label key, a label value or a metric key, which its
    name tells. *)
Inductive Kind : Type := LabelKey | LabelValue | MetricKey.

(** One [extern const std::string] declaration: the part of the header it is
    in, the block inside that part (the first line of the block's banner
    comment up to its parenthesis, empty before the first banner of a part),
    the declared name, and its line in the header. *)
Record Decl : Type := mkDecl {
  category : Category;
  block : string;
  symbol : string;
  line : nat
}.

#[global] Instance Category_eq_dec : EqDecision Category.
Proof. solve_decision. Defined.
#[global] Instance Kind_eq_dec : EqDecision Kind.
Proof. solve_decision. Defined.
#[global] Instance Decl_eq_dec : EqDecision Decl.
Proof. solve_decision. Defined.

Definition has_prefix (pre s : string) : bool := String.prefix pre s.

Definition kind_of (s : string) : Kind :=
  if has_prefix "METRIC_LABEL_KEY_" s then LabelKey
  else if has_prefix "METRIC_LABEL_VALUE_" s then LabelValue
  else MetricKey.

(** The declarations of MetricConstants.h, in the order of the header. *)
Definition declarations : list Decl := [
  mkDecl Agent "" "METRIC_LABEL_KEY_ALIUIDS" 27;
  mkDecl Agent "" "METRIC_LABEL_KEY_INSTANCE_ID" 28;
  mkDecl Agent "" "METRIC_LABEL_KEY_IP" 29;
  mkDecl Agent "" "METRIC_LABEL_KEY_OS" 30;
  mkDecl Agent "" "METRIC_LABEL_KEY_OS_DETAIL" 31;
  mkDecl Agent "" "METRIC_LABEL_KEY_PROJECT" 32;
  mkDecl Agent "" "METRIC_LABEL_KEY_USER_DEFINED_ID" 33;
  mkDecl Agent "" "METRIC_LABEL_KEY_UUID" 34;
  mkDecl Agent "" "METRIC_LABEL_KEY_VERSION" 35;
  mkDecl Agent "" "METRIC_AGENT_CPU" 38;
  mkDecl Agent "" "METRIC_AGENT_GO_ROUTINES_TOTAL" 39;
  mkDecl Agent "" "METRIC_AGENT_INSTANCE_CONFIG_TOTAL" 40;
  mkDecl Agent "" "METRIC_AGENT_MEMORY" 41;
  mkDecl Agent "" "METRIC_AGENT_MEMORY_GO" 42;
  mkDecl Agent "" "METRIC_AGENT_OPEN_FD_TOTAL" 43;
  mkDecl Agent "" "METRIC_AGENT_PIPELINE_CONFIG_TOTAL" 44;
  mkDecl Pipeline "" "METRIC_LABEL_KEY_LOGSTORE" 51;
  mkDecl Pipeline "" "METRIC_LABEL_KEY_PIPELINE_NAME" 52;
  mkDecl Pipeline "" "METRIC_LABEL_KEY_REGION" 53;
  mkDecl Pipeline "" "METRIC_PIPELINE_PROCESSORS_IN_EVENTS_TOTAL" 56;
  mkDecl Pipeline "" "METRIC_PIPELINE_PROCESSORS_IN_EVENT_GROUPS_TOTAL" 57;
  mkDecl Pipeline "" "METRIC_PIPELINE_PROCESSORS_IN_SIZE_BYTES" 58;
  mkDecl Pipeline "" "METRIC_PIPELINE_PROCESSORS_TOTAL_PROCESS_TIME_MS" 59;
  mkDecl Pipeline "" "METRIC_PIPELINE_START_TIME" 60;
  mkDecl Plugin "" "METRIC_LABEL_KEY_PLUGIN_ID" 67;
  mkDecl Plugin "" "METRIC_LABEL_KEY_PLUGIN_TYPE" 68;
  mkDecl Plugin "" "METRIC_PLUGIN_IN_EVENTS_TOTAL" 71;
  mkDecl Plugin "" "METRIC_PLUGIN_IN_EVENT_GROUPS_TOTAL" 72;
  mkDecl Plugin "" "METRIC_PLUGIN_IN_SIZE_BYTES" 73;
  mkDecl Plugin "" "METRIC_PLUGIN_OUT_EVENTS_TOTAL" 74;
  mkDecl Plugin "" "METRIC_PLUGIN_OUT_EVENT_GROUPS_TOTAL" 75;
  mkDecl Plugin "" "METRIC_PLUGIN_OUT_SIZE_BYTES" 76;
  mkDecl Plugin "" "METRIC_PLUGIN_TOTAL_DELAY_MS" 77;
  mkDecl Plugin "" "METRIC_PLUGIN_TOTAL_PROCESS_TIME_MS" 78;
  mkDecl Plugin "input_file" "METRIC_LABEL_KEY_FILE_DEV" 84;
  mkDecl Plugin "input_file" "METRIC_LABEL_KEY_FILE_INODE" 85;
  mkDecl Plugin "input_file" "METRIC_LABEL_KEY_FILE_NAME" 86;
  mkDecl Plugin "input_file" "METRIC_PLUGIN_MONITOR_FILE_TOTAL" 88;
  mkDecl Plugin "input_file" "METRIC_PLUGIN_SOURCE_READ_OFFSET_BYTES" 89;
  mkDecl Plugin "input_file" "METRIC_PLUGIN_SOURCE_SIZE_BYTES" 90;
  mkDecl Plugin "input_prometheus" "METRIC_LABEL_KEY_JOB" 95;
  mkDecl Plugin "input_prometheus" "METRIC_LABEL_KEY_POD_NAME" 96;
  mkDecl Plugin "input_prometheus" "METRIC_LABEL_KEY_SERVICE_HOST" 97;
  mkDecl Plugin "input_prometheus" "METRIC_LABEL_KEY_SERVICE_PORT" 98;
  mkDecl Plugin "input_prometheus" "METRIC_LABEL_KEY_STATUS" 99;
  mkDecl Plugin "input_prometheus" "METRIC_LABEL_KEY_INSTANCE" 100;
  mkDecl Plugin "input_prometheus" "METRIC_PLUGIN_PROM_SUBSCRIBE_TARGETS" 102;
  mkDecl Plugin "input_prometheus" "METRIC_PLUGIN_PROM_SUBSCRIBE_TOTAL" 103;
  mkDecl Plugin "input_prometheus" "METRIC_PLUGIN_PROM_SUBSCRIBE_TIME_MS" 104;
  mkDecl Plugin "input_prometheus" "METRIC_PLUGIN_PROM_SCRAPE_TIME_MS" 105;
  mkDecl Plugin "input_prometheus" "METRIC_PLUGIN_PROM_SCRAPE_DELAY_TOTAL" 106;
  mkDecl Plugin "all processor" "METRIC_PLUGIN_DISCARDED_EVENTS_TOTAL" 111;
  mkDecl Plugin "all processor" "METRIC_PLUGIN_OUT_FAILED_EVENTS_TOTAL" 112;
  mkDecl Plugin "all processor" "METRIC_PLUGIN_OUT_KEY_NOT_FOUND_EVENTS_TOTAL" 113;
  mkDecl Plugin "all processor" "METRIC_PLUGIN_OUT_SUCCESSFUL_EVENTS_TOTAL" 114;
  mkDecl Plugin "all flusher" "METRIC_PLUGIN_FLUSHER_OUT_EVENT_GROUPS_TOTAL" 120;
  mkDecl Plugin "all flusher" "METRIC_PLUGIN_FLUSHER_SEND_DONE_TOTAL" 121;
  mkDecl Plugin "all flusher" "METRIC_PLUGIN_FLUSHER_SUCCESS_TOTAL" 122;
  mkDecl Plugin "all flusher" "METRIC_PLUGIN_FLUSHER_NETWORK_ERROR_TOTAL" 123;
  mkDecl Plugin "all flusher" "METRIC_PLUGIN_FLUSHER_SERVER_ERROR_TOTAL" 124;
  mkDecl Plugin "all flusher" "METRIC_PLUGIN_FLUSHER_UNAUTH_ERROR_TOTAL" 125;
  mkDecl Plugin "all flusher" "METRIC_PLUGIN_FLUSHER_PARAMS_ERROR_TOTAL" 126;
  mkDecl Plugin "all flusher" "METRIC_PLUGIN_FLUSHER_OTHER_ERROR_TOTAL" 127;
  mkDecl Plugin "processor_parse_apsara_native" "METRIC_PLUGIN_HISTORY_FAILURE_TOTAL" 133;
  mkDecl Plugin "processor_split_multiline_log_string_native" "METRIC_PLUGIN_MATCHED_EVENTS_TOTAL" 138;
  mkDecl Plugin "processor_split_multiline_log_string_native" "METRIC_PLUGIN_MATCHED_LINES_TOTAL" 139;
  mkDecl Plugin "processor_split_multiline_log_string_native" "METRIC_PLUGIN_UNMATCHED_LINES_TOTAL" 140;
  mkDecl Plugin "processor_merge_multiline_log_native" "METRIC_PLUGIN_MERGED_EVENTS_TOTAL" 145;
  mkDecl Plugin "processor_merge_multiline_log_native" "METRIC_PLUGIN_UNMATCHED_EVENTS_TOTAL" 146;
  mkDecl Plugin "processor_parse_container_log_native" "METRIC_PLUGIN_PARSE_STDERR_TOTAL" 151;
  mkDecl Plugin "processor_parse_container_log_native" "METRIC_PLUGIN_PARSE_STDOUT_TOTAL" 152;
  mkDecl Plugin "flusher_sls" "METRIC_PLUGIN_FLUSHER_SLS_SHARD_WRITE_QUOTA_ERROR_TOTAL" 158;
  mkDecl Plugin "flusher_sls" "METRIC_PLUGIN_FLUSHER_SLS_PROJECT_QUOTA_ERROR_TOTAL" 159;
  mkDecl Plugin "flusher_sls" "METRIC_PLUGIN_FLUSHER_SLS_SEQUENCE_ID_ERROR_TOTAL" 160;
  mkDecl Plugin "flusher_sls" "METRIC_PLUGIN_FLUSHER_SLS_REQUEST_EXPRIRED_ERROR_TOTAL" 161;
  mkDecl Component "" "METRIC_LABEL_KEY_COMPONENT_NAME" 169;
  mkDecl Component "" "METRIC_LABEL_KEY_FLUSHER_PLUGIN_ID" 170;
  mkDecl Component "" "METRIC_LABEL_KEY_EXACTLY_ONCE_FLAG" 171;
  mkDecl Component "" "METRIC_LABEL_KEY_QUEUE_TYPE" 172;
  mkDecl Component "" "METRIC_LABEL_VALUE_COMPONENT_NAME_BATCHER" 175;
  mkDecl Component "" "METRIC_LABEL_VALUE_COMPONENT_NAME_COMPRESSOR" 176;
  mkDecl Component "" "METRIC_LABEL_VALUE_COMPONENT_NAME_PROCESS_QUEUE" 177;
  mkDecl Component "" "METRIC_LABEL_VALUE_COMPONENT_NAME_ROUTER" 178;
  mkDecl Component "" "METRIC_LABEL_VALUE_COMPONENT_NAME_SENDER_QUEUE" 179;
  mkDecl Component "" "METRIC_LABEL_VALUE_COMPONENT_NAME_SERIALIZER" 180;
  mkDecl Component "" "METRIC_COMPONENT_IN_EVENTS_TOTAL" 183;
  mkDecl Component "" "METRIC_COMPONENT_IN_SIZE_BYTES" 184;
  mkDecl Component "" "METRIC_COMPONENT_IN_ITEMS_TOTAL" 185;
  mkDecl Component "" "METRIC_COMPONENT_OUT_EVENTS_TOTAL" 186;
  mkDecl Component "" "METRIC_COMPONENT_OUT_ITEMS_TOTAL" 187;
  mkDecl Component "" "METRIC_COMPONENT_OUT_SIZE_BYTES" 188;
  mkDecl Component "" "METRIC_COMPONENT_TOTAL_DELAY_MS" 189;
  mkDecl Component "" "METRIC_COMPONENT_TOTAL_PROCESS_TIME_MS" 190;
  mkDecl Component "" "METRIC_COMPONENT_DISCARDED_ITEMS_TOTAL" 191;
  mkDecl Component "" "METRIC_COMPONENT_DISCARDED_ITEMS_SIZE_BYTES" 192;
  mkDecl Component "batcher" "METRIC_COMPONENT_BATCHER_EVENT_BATCHES_TOTAL" 197;
  mkDecl Component "batcher" "METRIC_COMPONENT_BATCHER_BUFFERED_GROUPS_TOTAL" 198;
  mkDecl Component "batcher" "METRIC_COMPONENT_BATCHER_BUFFERED_EVENTS_TOTAL" 199;
  mkDecl Component "batcher" "METRIC_COMPONENT_BATCHER_BUFFERED_SIZE_BYTES" 200;
  mkDecl Component "queue" "METRIC_COMPONENT_QUEUE_SIZE" 205;
  mkDecl Component "queue" "METRIC_COMPONENT_QUEUE_SIZE_BYTES" 206;
  mkDecl Component "queue" "METRIC_COMPONENT_QUEUE_VALID_TO_PUSH_FLAG" 207;
  mkDecl Component "queue" "METRIC_COMPONENT_QUEUE_EXTRA_BUFFER_SIZE" 208;
  mkDecl Component "queue" "METRIC_COMPONENT_QUEUE_EXTRA_BUFFER_SIZE_BYTES" 209;
  mkDecl Component "queue" "METRIC_COMPONENT_QUEUE_DISCARDED_EVENTS_TOTAL" 210;
  mkDecl Component "queue" "METRIC_COMPONENT_FETCH_TIMES_TOTAL" 212;
  mkDecl Component "queue" "METRIC_COMPONENT_FETCHED_ITEMS_TOTAL" 213;
  mkDecl Component "queue" "METRIC_COMPONENT_FETCH_REJECTED_BY_REGION_LIMITER_TIMES_TOTAL" 214;
  mkDecl Component "queue" "METRIC_COMPONENT_FETCH_REJECTED_BY_PROJECT_LIMITER_TIMES_TOTAL" 215;
  mkDecl Component "queue" "METRIC_COMPONENT_FETCH_REJECTED_BY_LOGSTORE_LIMITER_TIMES_TOTAL" 216;
  mkDecl Component "queue" "METRIC_COMPONENT_FETCH_REJECTED_BY_RATE_LIMITER_TIMES_TOTAL" 217;
  mkDecl Runner "" "METRIC_LABEL_KEY_RUNNER_NAME" 225;
  mkDecl Runner "" "METRIC_LABEL_VALUE_RUNNER_NAME_FILE_SERVER" 228;
  mkDecl Runner "" "METRIC_LABEL_VALUE_RUNNER_NAME_FLUSHER" 229;
  mkDecl Runner "" "METRIC_LABEL_VALUE_RUNNER_NAME_HTTP_SINK" 230;
  mkDecl Runner "" "METRIC_LABEL_VALUE_RUNNER_NAME_PROCESSOR" 231;
  mkDecl Runner "" "METRIC_LABEL_VALUE_RUNNER_NAME_PROMETHEUS" 232;
  mkDecl Runner "" "METRIC_RUNNER_IN_EVENTS_TOTAL" 235;
  mkDecl Runner "" "METRIC_RUNNER_IN_EVENT_GROUPS_TOTAL" 236;
  mkDecl Runner "" "METRIC_RUNNER_IN_SIZE_BYTES" 237;
  mkDecl Runner "" "METRIC_RUNNER_IN_ITEMS_TOTAL" 238;
  mkDecl Runner "" "METRIC_RUNNER_LAST_RUN_TIME" 239;
  mkDecl Runner "" "METRIC_RUNNER_OUT_ITEMS_TOTAL" 240;
  mkDecl Runner "" "METRIC_RUNNER_TOTAL_DELAY_MS" 241;
  mkDecl Runner "" "METRIC_RUNNER_SINK_OUT_SUCCESSFUL_ITEMS_TOTAL" 242;
  mkDecl Runner "" "METRIC_RUNNER_SINK_OUT_FAILED_ITEMS_TOTAL" 243;
  mkDecl Runner "" "METRIC_RUNNER_SINK_SENDING_ITEMS_TOTAL" 244;
  mkDecl Runner "" "METRIC_RUNNER_SINK_SEND_CONCURRENCY" 245;
  mkDecl Runner "" "METRIC_RUNNER_CLIENT_REGISTER_STATE" 246;
  mkDecl Runner "" "METRIC_RUNNER_CLIENT_REGISTER_RETRY_TOTAL" 247;
  mkDecl Runner "" "METRIC_RUNNER_JOB_NUM" 248;
  mkDecl Runner "flusher runner" "METRIC_RUNNER_FLUSHER_IN_SIZE_BYTES" 254;
  mkDecl Runner "flusher runner" "METRIC_RUNNER_FLUSHER_WAITING_ITEMS_TOTAL" 255;
  mkDecl Runner "file server" "METRIC_RUNNER_FILE_WATCHED_DIRS_TOTAL" 260;
  mkDecl Runner "file server" "METRIC_RUNNER_FILE_ACTIVE_READERS_TOTAL" 261;
  mkDecl Runner "file server" "METRIC_RUNNER_FILE_ENABLE_FILE_INCLUDED_BY_MULTI_CONFIGS_FLAG" 262;
  mkDecl Runner "file server" "METRIC_RUNNER_FILE_POLLING_MODIFY_CACHE_SIZE" 263;
  mkDecl Runner "file server" "METRIC_RUNNER_FILE_POLLING_DIR_CACHE_SIZE" 264;
  mkDecl Runner "file server" "METRIC_RUNNER_FILE_POLLING_FILE_CACHE_SIZE" 265
].

Definition symbols : list string := symbol <$> declarations.

(** The names declared in a given block of a given part, of a given kind. *)
Definition declared_in (c : Category) (b : string) (k : Kind) : list string :=
  symbol <$>
    filter (fun d => category d = c /\ block d = b /\ kind_of (symbol d) = k)
           declarations.

(** The names declared in a given part, of a given kind, whatever the block. *)
Definition declared_of (c : Category) (k : Kind) : list string :=
  symbol <$>
    filter (fun d => category d = c /\ kind_of (symbol d) = k) declarations.

(** Modelled from the spec: the six classes of delivery outcome of section 3
    ("DeliveryOutcome: one of {Success, NetworkError, ServerError,
    UnauthorizedError, ParamsError, OtherError}"); the code that classifies a
    delivery is not among the sources. *)
Inductive DeliveryOutcome : Type :=
| Success
| NetworkError
| ServerError
| UnauthorizedError
| ParamsError
| OtherError.

#[global] Instance DeliveryOutcome_eq_dec : EqDecision DeliveryOutcome.
Proof. solve_decision. Defined.

Definition all_outcomes : list DeliveryOutcome :=
  [Success; NetworkError; ServerError; UnauthorizedError; ParamsError; OtherError].

(** The counter the header declares for each class (lines 122-127). *)
Definition flusher_counter_key (o : DeliveryOutcome) : string :=
  match o with
  | Success => "METRIC_PLUGIN_FLUSHER_SUCCESS_TOTAL"
  | NetworkError => "METRIC_PLUGIN_FLUSHER_NETWORK_ERROR_TOTAL"
  | ServerError => "METRIC_PLUGIN_FLUSHER_SERVER_ERROR_TOTAL"
  | UnauthorizedError => "METRIC_PLUGIN_FLUSHER_UNAUTH_ERROR_TOTAL"
  | ParamsError => "METRIC_PLUGIN_FLUSHER_PARAMS_ERROR_TOTAL"
  | OtherError => "METRIC_PLUGIN_FLUSHER_OTHER_ERROR_TOTAL"
  end.

(** Modelled from the spec: the four rate-limiter scopes of section 4.6
    ("Four independent scopes: global, region, project, logical-store"); the
    limiters themselves are not among the sources. *)
Inductive Scope : Type := Global | Region | Project | LogicalStore.

Definition all_scopes : list Scope := [Global; Region; Project; LogicalStore].

#[global] Instance Scope_eq_dec : EqDecision Scope.
Proof. solve_decision. Defined.

(** The rejection counter the header declares for each scope (lines 214-217);
    the counter of the limiter that is not tied to a region, project or
    logstore is the global one. *)
Definition fetch_rejected_key (s : Scope) : string :=
  match s with
  | Global => "METRIC_COMPONENT_FETCH_REJECTED_BY_RATE_LIMITER_TIMES_TOTAL"
  | Region => "METRIC_COMPONENT_FETCH_REJECTED_BY_REGION_LIMITER_TIMES_TOTAL"
  | Project => "METRIC_COMPONENT_FETCH_REJECTED_BY_PROJECT_LIMITER_TIMES_TOTAL"
  | LogicalStore => "METRIC_COMPONENT_FETCH_REJECTED_BY_LOGSTORE_LIMITER_TIMES_TOTAL"
  end.

(** What a queue reports about itself (section 4.1, "Metrics exposed", and
    the backpressure flag of section 4.5). *)
Inductive QueueGauge : Type :=
| SizeCount
| SizeBytes
| ExtraBufferCount
| ExtraBufferBytes
| DiscardedEvents
| ValidToPushFlag.

#[global] Instance QueueGauge_eq_dec : EqDecision QueueGauge.
Proof. solve_decision. Defined.

Definition all_queue_gauges : list QueueGauge :=
  [SizeCount; SizeBytes; ExtraBufferCount; ExtraBufferBytes; DiscardedEvents;
   ValidToPushFlag].

(** The key the header declares for each of them (lines 205-210). *)
Definition queue_key (g : QueueGauge) : string :=
  match g with
  | SizeCount => "METRIC_COMPONENT_QUEUE_SIZE"
  | SizeBytes => "METRIC_COMPONENT_QUEUE_SIZE_BYTES"
  | ExtraBufferCount => "METRIC_COMPONENT_QUEUE_EXTRA_BUFFER_SIZE"
  | ExtraBufferBytes => "METRIC_COMPONENT_QUEUE_EXTRA_BUFFER_SIZE_BYTES"
  | DiscardedEvents => "METRIC_COMPONENT_QUEUE_DISCARDED_EVENTS_TOTAL"
  | ValidToPushFlag => "METRIC_COMPONENT_QUEUE_VALID_TO_PUSH_FLAG"
  end.

(** ** Facts about the header *)

(** No name is declared twice. *)
Lemma symbols_NoDup : NoDup symbols.
Proof. apply (bool_decide_unpack _). vm_compute. reflexivity. Qed.

(** C4. Each of the six delivery-outcome classes has a counter key of its
    own among the metric keys the header declares for all flushers, and the
    six keys are pairwise different. *)
Theorem flusher_counter_keys_distinct :
  Forall (fun o => flusher_counter_key o
                     ∈ declared_in Plugin "all flusher" MetricKey) all_outcomes
  /\ NoDup (flusher_counter_key <$> all_outcomes)
  /\ (forall o : DeliveryOutcome, o ∈ all_outcomes).
Proof.
  split; [| split].
  - apply (bool_decide_unpack _). vm_compute. reflexivity.
  - apply (bool_decide_unpack _). vm_compute. reflexivity.
  - intros []; apply (bool_decide_unpack _); vm_compute; reflexivity.
Qed.

(** C6. The queue block of the component part declares a metric key for the
    size in elements, the size in bytes, the extra-buffer usage in elements
    and in bytes, the discarded events and the valid-to-push flag, and the six
    keys are pairwise different. *)
Theorem queue_keys_distinct :
  Forall (fun g => queue_key g ∈ declared_in Component "queue" MetricKey)
         all_queue_gauges
  /\ NoDup (queue_key <$> all_queue_gauges)
  /\ (forall g : QueueGauge, g ∈ all_queue_gauges).
Proof.
  split; [| split].
  - apply (bool_decide_unpack _). vm_compute. reflexivity.
  - apply (bool_decide_unpack _). vm_compute. reflexivity.
  - intros []; apply (bool_decide_unpack _); vm_compute; reflexivity.
Qed.

(** ** The naming scheme of the header *)

(** The prefix of the metric keys of each part. *)
Definition part_prefix (c : Category) : string :=
  match c with
  | Agent => "METRIC_AGENT_"
  | Pipeline => "METRIC_PIPELINE_"
  | Plugin => "METRIC_PLUGIN_"
  | Component => "METRIC_COMPONENT_"
  | Runner => "METRIC_RUNNER_"
  end.

(** What follows [METRIC_LABEL_KEY_] in the name of a label key. *)
Definition label_stem (key : string) : string :=
  String.substring 17 (String.length key - 17) key.

(** The values a label key can take are named after it:
    [METRIC_LABEL_VALUE_<stem>_...]. *)
Definition value_of_key (key value : string) : Prop :=
  String.prefix ("METRIC_LABEL_VALUE_" ++ label_stem key ++ "_") value = true.

#[global] Instance value_of_key_dec (key value : string) :
  Decision (value_of_key key value).
Proof. unfold value_of_key. apply _. Defined.

(** X9. The header declares 139 constants and no name twice. *)
Theorem each_constant_declared_once :
  length declarations = 139 /\ NoDup (symbol <$> declarations).
Proof.
  split; [reflexivity |].
  apply (bool_decide_unpack _). vm_compute. reflexivity.
Qed.

(** X10. Every declared name starts with [METRIC_], and every metric key
    carries the prefix of the part of the header it is declared in
    ([METRIC_AGENT_], [METRIC_PIPELINE_], [METRIC_PLUGIN_],
    [METRIC_COMPONENT_], [METRIC_RUNNER_]): no part declares a metric key
    under another part's prefix. *)
Theorem metric_keys_named_after_their_part :
  Forall (fun d =>
            String.prefix "METRIC_" (symbol d) = true
            /\ (kind_of (symbol d) = MetricKey ->
                String.prefix (part_prefix (category d)) (symbol d) = true))
         declarations.
Proof. apply (bool_decide_unpack _). vm_compute. reflexivity. Qed.

(** X11. Every label value the header declares belongs to a label key
    declared in the same part: its name is [METRIC_LABEL_VALUE_] followed by
    what follows [METRIC_LABEL_KEY_] in the name of that key. The only label
    keys with declared values are the component name and the runner name. *)
Theorem label_values_have_their_key :
  Forall (fun d =>
            kind_of (symbol d) = LabelValue ->
            Exists (fun key => value_of_key key (symbol d))
                   (declared_of (category d) LabelKey))
         declarations
  /\ filter (fun key => Exists (fun d => value_of_key key (symbol d)) declarations)
            (symbol <$> declarations)
     = ["METRIC_LABEL_KEY_COMPONENT_NAME"; "METRIC_LABEL_KEY_RUNNER_NAME"].
Proof.
  split.
  - apply (bool_decide_unpack _). vm_compute. reflexivity.
  - vm_compute. reflexivity.
Qed.

End MetricConstants.

(* ===================================================================== *)
(** * Metric export (metric_export.go)                                    *)
(* ===================================================================== *)

Module MetricExport.

(** A Go slice is [nil] or has a backing array; both can have length 0. *)
Inductive slice (A : Type) : Type :=
| nil_slice
| mk_slice (xs : list A).

Arguments nil_slice {A}.
Arguments mk_slice {A} xs.

Definition elems {A : Type} (s : slice A) : list A :=
  match s with nil_slice => [] | mk_slice xs => xs end.

Definition is_nil {A : Type} (s : slice A) : bool :=
  match s with nil_slice => true | mk_slice _ => false end.

(** [append(s, xs...)] *)
Definition append {A : Type} (s : slice A) (xs : list A) : slice A :=
  match s, xs with
  | nil_slice, [] => nil_slice
  | nil_slice, _ :: _ => mk_slice xs
  | mk_slice ys, _ => mk_slice (ys ++ xs)
  end.

(** [make([]T, 0)] and the literal [[]T{}] *)
Definition make0 {A : Type} : slice A := mk_slice [].

(** One emission: a flat [map[string]string]. *)
Abbreviation metric := (gmap string string).

Definition MetricExportTypeGo : string := "direct".
Definition MetricExportTypeCpp : string := "cpp_provided".

(** [helper.MetricAgentMemoryGo] and [helper.MetricAgentGoRoutinesTotal], with
    the values the comment above [GetGoCppProvidedMetrics] shows. *)
Definition MetricAgentMemoryGo : string := "agent_go_memory_used_mb".
Definition MetricAgentGoRoutinesTotal : string := "agent_go_routines_total".

(** [strings.HasSuffix] *)
Definition HasSuffix (s suffix : string) : bool :=
  let n := String.length s in
  let m := String.length suffix in
  (m <=? n)%nat && String.eqb (String.substring (n - m) m s) suffix.

(** [strconv.FormatUint(v, 10)] *)
Definition FormatUint10 (v : N) : string :=
  DecimalString.NilZero.string_of_uint (N.to_uint v).

Section Emission.

(** The loaded configurations in the order [range LogtailConfig] yields
    them, and [config.Context.ExportMetricRecords()]. *)
Context {Config : Type}.
Variable LogtailConfig : list Config.
Variable ExportMetricRecords : Config -> slice metric.

(** [k8smeta.GetMetaManagerMetrics()] *)
Variable GetMetaManagerMetrics : slice metric.

(** [runtime/metrics]: a sample value is of kind bad, uint64 or float64;
    [Read] fills in the value of each named sample. *)
Context {Float64 : Type}.

Inductive Value : Type :=
| KindBad
| KindUint64 (v : N)
| KindFloat64 (f : Float64).

Variable Read : string -> Value.

(** [strconv.FormatFloat(f, 'g', -1, 64)] *)
Variable FormatFloat : Float64 -> string.

(** Which of the two orders [range metricNames] yields. *)
Variable range_flipped : bool.

Definition metricNames : gmap string string :=
  <["/memory/classes/total:bytes" := MetricAgentMemoryGo]>
    (<["/sched/goroutines:goroutines" := MetricAgentGoRoutinesTotal]> ∅).

Definition metricNames_range : list string :=
  if range_flipped
  then ["/sched/goroutines:goroutines"; "/memory/classes/total:bytes"]
  else ["/memory/classes/total:bytes"; "/sched/goroutines:goroutines"].

(** The body of the loop [for _, sample := range samples]. *)
Definition record_sample (m : metric) (sample : string * Value) : metric :=
  let key := default "" (metricNames !! sample.1) in
  let valueStr :=
    match sample.2 with
    | KindUint64 v =>
      if HasSuffix key "_mb" then FormatUint10 (v / 1024 / 1024)%N
      else FormatUint10 v
    | KindFloat64 f => FormatFloat f
    | KindBad => ""
    end in
  <[key := valueStr]> m.

(** [func GetAgentStat() []map[string]string] *)
Definition GetAgentStat : slice metric :=
  let metrics := make0 in
  let samples := (fun name => (name, Read name)) <$> metricNames_range in
  let m := foldl record_sample ∅ samples in
  append metrics [m].

(** [func GetGoPluginMetrics() []map[string]string] *)
Definition GetGoPluginMetrics : slice metric :=
  foldl (fun metrics config => append metrics (elems (ExportMetricRecords config)))
        make0 LogtailConfig.

(** [func GetGoCppProvidedMetrics() []map[string]string] *)
Definition GetGoCppProvidedMetrics : slice metric :=
  append make0 (elems GetAgentStat).

(** [func GetGoDirectMetrics() []map[string]string] *)
Definition GetGoDirectMetrics : slice metric :=
  append (append make0 (elems GetGoPluginMetrics)) (elems GetMetaManagerMetrics).

(** [func GetMetrics(metricType string) []map[string]string] *)
Definition GetMetrics (metricType : string) : slice metric :=
  if String.eqb metricType MetricExportTypeGo then GetGoDirectMetrics
  else if String.eqb metricType MetricExportTypeCpp then GetGoCppProvidedMetrics
  else make0.

End Emission.

Arguments Value : clear implicits.

(** ** Facts about [GetMetrics] *)

Section EmissionFacts.

Context {Config Float64 : Type}.
Variable LogtailConfig : list Config.
Variable ExportMetricRecords : Config -> slice metric.
Variable GetMetaManagerMetrics : slice metric.
Variable Read : string -> Value Float64.
Variable FormatFloat : Float64 -> string.
Variable range_flipped : bool.

Local Abbreviation GetMetrics :=
  (GetMetrics LogtailConfig ExportMetricRecords GetMetaManagerMetrics Read
              FormatFloat range_flipped).

Lemma append_elems {A : Type} (s : slice A) (xs : list A) :
  elems (append s xs) = elems s ++ xs.
Proof. destruct s, xs; simpl; rewrite ?app_nil_r; reflexivity. Qed.

Lemma append_non_nil {A : Type} (s : slice A) (xs : list A) :
  is_nil s = false -> is_nil (append s xs) = false.
Proof. destruct s; [discriminate | reflexivity]. Qed.

Lemma GetGoPluginMetrics_elems :
  elems (GetGoPluginMetrics LogtailConfig ExportMetricRecords)
  = concat ((fun config => elems (ExportMetricRecords config)) <$> LogtailConfig)
  /\ is_nil (GetGoPluginMetrics LogtailConfig ExportMetricRecords) = false.
Proof.
  unfold GetGoPluginMetrics.
  assert (H : forall (cs : list Config) (acc : slice metric),
    is_nil acc = false ->
    elems (foldl (fun metrics config =>
                    append metrics (elems (ExportMetricRecords config))) acc cs)
      = elems acc ++ concat ((fun config => elems (ExportMetricRecords config)) <$> cs)
    /\ is_nil (foldl (fun metrics config =>
                    append metrics (elems (ExportMetricRecords config))) acc cs)
       = false).
  { induction cs as [| c cs IH]; intros acc Hacc; simpl.
    - rewrite app_nil_r. auto.
    - destruct (IH (append acc (elems (ExportMetricRecords c)))) as [IH1 IH2].
      + now apply append_non_nil.
      + rewrite IH1, IH2, append_elems, <- app_assoc. auto. }
  apply (H LogtailConfig make0). reflexivity.
Qed.

(** The one map of [GetAgentStat] has no key besides the two agent keys. *)
Lemma GetAgentStat_one_map :
  exists m : metric,
    GetAgentStat Read FormatFloat range_flipped = mk_slice [m]
    /\ dom m = ({[ MetricAgentMemoryGo; MetricAgentGoRoutinesTotal ]} : gset string).
Proof.
  unfold GetAgentStat. eexists. split; [reflexivity |].
  unfold metricNames_range.
  destruct range_flipped; cbn [fmap list_fmap foldl];
    unfold record_sample; cbn [fst snd];
    change (default "" (metricNames !! "/memory/classes/total:bytes"))
      with MetricAgentMemoryGo;
    change (default "" (metricNames !! "/sched/goroutines:goroutines"))
      with MetricAgentGoRoutinesTotal;
    rewrite !dom_insert_L, dom_empty_L; set_solver.
Qed.

(** C10. For a metric type other than ["direct"] and ["cpp_provided"],
    [GetMetrics] returns the empty slice literal: not [nil], of length 0.
    [GetMetrics] has no error result, and this path calls nothing that could
    fail. *)
Theorem GetMetrics_unknown_type (metricType : string) :
  metricType <> "direct" ->
  metricType <> "cpp_provided" ->
  GetMetrics metricType = mk_slice []
  /\ is_nil (GetMetrics metricType) = false
  /\ length (elems (GetMetrics metricType)) = 0%nat.
Proof.
  intros Hgo Hcpp. unfold MetricExport.GetMetrics.
  unfold MetricExportTypeGo, MetricExportTypeCpp.
  destruct (String.eqb_spec metricType "direct"); [contradiction |].
  destruct (String.eqb_spec metricType "cpp_provided"); [contradiction |].
  repeat split.
Qed.

(** C3. What [GetMetrics] emits is a slice of flat string-to-string maps
    (that is its type), never [nil]: for ["direct"], the maps each loaded
    configuration exports followed by those of the meta manager, one map per
    exported snapshot, unchanged and in order; for ["cpp_provided"], one map
    whose keys are the two agent-level keys. The component part of
    MetricConstants.h declares four label keys: component name, flusher plugin
    id, exactly-once flag and queue type. *)
Theorem GetMetrics_flat_maps :
  (forall metricType, is_nil (GetMetrics metricType) = false)
  /\ elems (GetMetrics "direct")
     = concat ((fun config => elems (ExportMetricRecords config)) <$> LogtailConfig)
       ++ elems GetMetaManagerMetrics
  /\ (exists m : metric,
        GetMetrics "cpp_provided" = mk_slice [m]
        /\ dom m = ({[ MetricAgentMemoryGo; MetricAgentGoRoutinesTotal ]}
                    : gset string))
  /\ MetricConstants.declared_of MetricConstants.Component MetricConstants.LabelKey
     = [ "METRIC_LABEL_KEY_COMPONENT_NAME";
         "METRIC_LABEL_KEY_FLUSHER_PLUGIN_ID";
         "METRIC_LABEL_KEY_EXACTLY_ONCE_FLAG";
         "METRIC_LABEL_KEY_QUEUE_TYPE" ].
Proof.
  split; [| split; [| split]].
  - intros metricType. unfold MetricExport.GetMetrics.
    destruct (String.eqb metricType MetricExportTypeGo);
      [| destruct (String.eqb metricType MetricExportTypeCpp)].
    + unfold GetGoDirectMetrics. now do 2 apply append_non_nil.
    + unfold GetGoCppProvidedMetrics. now apply append_non_nil.
    + reflexivity.
  - change (GetMetrics "direct")
      with (GetGoDirectMetrics LogtailConfig ExportMetricRecords
                               GetMetaManagerMetrics).
    unfold GetGoDirectMetrics. rewrite !append_elems. simpl.
    now rewrite (proj1 GetGoPluginMetrics_elems).
  - change (GetMetrics "cpp_provided")
      with (GetGoCppProvidedMetrics Read FormatFloat range_flipped).
    unfold GetGoCppProvidedMetrics.
    destruct GetAgentStat_one_map as (m & Hm & Hdom).
    exists m. rewrite Hm. split; [reflexivity | exact Hdom].
  - vm_compute. reflexivity.
Qed.

End EmissionFacts.

(** [GetMetrics "json"], with no configuration loaded, is the empty slice. *)
Lemma GetMetrics_unknown_type_witness :
  GetMetrics (Config := unit) (Float64 := unit) [] (fun _ => nil_slice)
             nil_slice (fun _ => KindBad) (fun _ => "") false "json"
    = mk_slice []
  /\ is_nil (GetMetrics (Config := unit) (Float64 := unit) []
               (fun _ => nil_slice) nil_slice (fun _ => KindBad)
               (fun _ => "") false "json") = false
  /\ length (elems (GetMetrics (Config := unit) (Float64 := unit) []
               (fun _ => nil_slice) nil_slice (fun _ => KindBad)
               (fun _ => "") false "json")) = 0%nat.
Proof.
  apply (GetMetrics_unknown_type (Config := unit) (Float64 := unit) []
           (fun _ => nil_slice) nil_slice (fun _ => KindBad) (fun _ => "")
           false "json").
  - discriminate.
  - discriminate.
Defined.

(** ** More facts about [GetAgentStat] *)

(** A reading of the Go runtime: 100 MiB mapped, 20 goroutines. *)
Definition demo_Read (name : string) : Value unit :=
  if String.eqb name "/memory/classes/total:bytes"
  then KindUint64 (100 * 1024 * 1024)
  else KindUint64 20.

(** X12. The map of [GetAgentStat] does not depend on the order in which
    [range metricNames] yields the two sample names. *)
Theorem GetAgentStat_order_independent {Float64 : Type}
    (Read : string -> Value Float64) (FormatFloat : Float64 -> string) :
  GetAgentStat Read FormatFloat true = GetAgentStat Read FormatFloat false.
Proof.
  unfold GetAgentStat, metricNames_range.
  cbn [fmap list_fmap foldl]. unfold record_sample. cbn [fst snd].
  change (default "" (metricNames !! "/memory/classes/total:bytes"))
    with MetricAgentMemoryGo.
  change (default "" (metricNames !! "/sched/goroutines:goroutines"))
    with MetricAgentGoRoutinesTotal.
  rewrite (insert_insert_ne (M := gmap string) _ MetricAgentMemoryGo
             MetricAgentGoRoutinesTotal) by discriminate.
  reflexivity.
Qed.

(** X13. When the runtime reports both samples as [uint64], the one map of
    [GetAgentStat] holds the memory in MiB (the byte count divided by 1024
    twice, rounded down) under [agent_go_memory_used_mb] and the number of
    goroutines, unscaled, under [agent_go_routines_total], both in decimal. *)
Theorem GetAgentStat_values {Float64 : Type}
    (Read : string -> Value Float64) (FormatFloat : Float64 -> string)
    (range_flipped : bool) (bytes goroutines : N) :
  Read "/memory/classes/total:bytes" = KindUint64 bytes ->
  Read "/sched/goroutines:goroutines" = KindUint64 goroutines ->
  GetAgentStat Read FormatFloat range_flipped
  = mk_slice
      [ <["agent_go_memory_used_mb" := FormatUint10 (bytes / 1024 / 1024)%N]>
          (<["agent_go_routines_total" := FormatUint10 goroutines]> ∅) ].
Proof.
  intros Hmem Hgo.
  assert (Hflip : GetAgentStat Read FormatFloat range_flipped
                  = GetAgentStat Read FormatFloat true).
  { destruct range_flipped; [reflexivity |].
    unfold GetAgentStat, metricNames_range.
    cbn [fmap list_fmap foldl]. unfold record_sample. cbn [fst snd].
    change (default "" (metricNames !! "/memory/classes/total:bytes"))
      with MetricAgentMemoryGo.
    change (default "" (metricNames !! "/sched/goroutines:goroutines"))
      with MetricAgentGoRoutinesTotal.
    rewrite (insert_insert_ne (M := gmap string) _ MetricAgentMemoryGo
               MetricAgentGoRoutinesTotal) by discriminate.
    reflexivity. }
  rewrite Hflip.
  unfold GetAgentStat, metricNames_range.
  cbn [fmap list_fmap foldl]. unfold record_sample. cbn [fst snd].
  change (default "" (metricNames !! "/memory/classes/total:bytes"))
    with MetricAgentMemoryGo.
  change (default "" (metricNames !! "/sched/goroutines:goroutines"))
    with MetricAgentGoRoutinesTotal.
  rewrite Hmem, Hgo.
  change (HasSuffix MetricAgentMemoryGo "_mb") with true.
  change (HasSuffix MetricAgentGoRoutinesTotal "_mb") with false.
  reflexivity.
Qed.

Lemma GetAgentStat_values_witness :
  GetAgentStat demo_Read (fun _ : unit => "") false
  = mk_slice [ <["agent_go_memory_used_mb" := "100"]>
                 (<["agent_go_routines_total" := "20"]> ∅) ].
Proof.
  apply (GetAgentStat_values demo_Read (fun _ : unit => "") false
           (100 * 1024 * 1024) 20).
  - reflexivity.
  - reflexivity.
Defined.

End MetricExport.

(* ===================================================================== *)
(** * Configuration provider (ConfigProvider.cpp)                         *)
(* ===================================================================== *)

Module ConfigProvider.

(** ** [std::filesystem::path] on a POSIX system

    A path is its native string. There is no root name; a path is absolute
    when it starts with the separator, and it has a filename when it is not
    empty and does not end with the separator. *)
Abbreviation path := string.

Definition separator : ascii := "/"%char.

Definition is_absolute (p : path) : bool :=
  match p with
  | String c _ => Ascii.eqb c separator
  | EmptyString => false
  end.

Fixpoint has_filename (p : path) : bool :=
  match p with
  | EmptyString => false
  | String c EmptyString => negb (Ascii.eqb c separator)
  | String _ rest => has_filename rest
  end.

(** [path& operator/=(const path& p)]: an absolute [p] replaces the path;
    otherwise a separator is appended when the path has a filename, and then
    [p]. *)
Definition path_append (a p : path) : path :=
  if is_absolute p then p
  else if has_filename a then (a ++ String separator p)%string
  else (a ++ p)%string.

Infix "/=" := path_append (at level 40, left associativity).

(** ** The provider and what it calls *)

(** The two mutex members, whose addresses [Init] hands to the watchers. *)
Inductive MutexRef : Type := mPipelineMux | mInstanceMux.

(** The members of [ConfigProvider] that ConfigProvider.cpp names, and
    whatever else a provider holds. *)
Record ConfigProvider {Rest : Type} : Type := mkConfigProvider {
  mPipelineSourceDir : path;
  mInstanceSourceDir : path;
  rest : Rest
}.
Arguments ConfigProvider : clear implicits.
Arguments mkConfigProvider {Rest} _ _ _.

(** The calls [Init] makes outside the provider, in program order. *)
Inductive Call : Type :=
| create_directories (p : path)
| ConfigWatcher_AddSource (dir : path) (mux : MutexRef)
| InstanceConfigWatcher_AddSource (dir : path) (mux : MutexRef).

(** [std::error_code]: zero is success. *)
Abbreviation error_code := Z.

Definition ec_clear (ec : error_code) : error_code := 0%Z.

Section Init.

Context {Rest : Type}.

(** [AppConfig::GetInstance()->GetLoongcollectorConfDir()] *)
Variable GetLoongcollectorConfDir : string.

(** The error code [filesystem::create_directories(p, ec)] stores in [ec]
    for each path, whatever the file system makes it. *)
Variable create_directories_ec : path -> error_code.

(** [void ConfigProvider::Init(const string& dir)]: the provider after the
    call and the calls made, in order. *)
Definition Init (dir : string) (this : ConfigProvider Rest)
    : ConfigProvider Rest * list Call :=
  let pipelineDir := GetLoongcollectorConfDir in        (* assign *)
  let pipelineDir := pipelineDir /= "pipeline_config" in
  let pipelineDir := pipelineDir /= dir in
  let this := mkConfigProvider pipelineDir (mInstanceSourceDir this) (rest this) in
  let instanceDir := GetLoongcollectorConfDir in        (* assign *)
  let instanceDir := instanceDir /= "instance_config" in
  let instanceDir := instanceDir /= dir in
  let this := mkConfigProvider (mPipelineSourceDir this) instanceDir (rest this) in
  let ec : error_code := 0%Z in
  let ec := create_directories_ec (mPipelineSourceDir this) in
  let calls := [create_directories (mPipelineSourceDir this)] in
  let calls := calls ++ [ConfigWatcher_AddSource (mPipelineSourceDir this) mPipelineMux] in
  let ec := ec_clear ec in
  let ec := create_directories_ec (mInstanceSourceDir this) in
  let calls := calls ++ [create_directories (mInstanceSourceDir this)] in
  let calls := calls ++ [InstanceConfigWatcher_AddSource (mInstanceSourceDir this) mInstanceMux] in
  (this, calls).

End Init.

(** The watch sources registered by a run of calls, per watcher. *)
Definition pipeline_sources (calls : list Call) : list (path * MutexRef) :=
  omap (fun c => match c with
                 | ConfigWatcher_AddSource d m => Some (d, m)
                 | _ => None
                 end) calls.

Definition instance_sources (calls : list Call) : list (path * MutexRef) :=
  omap (fun c => match c with
                 | InstanceConfigWatcher_AddSource d m => Some (d, m)
                 | _ => None
                 end) calls.

(** [created_before created calls]: every directory registered in [calls]
    was created earlier in [calls], or is one of [created]. *)
Fixpoint created_before (created : list path) (calls : list Call) : bool :=
  match calls with
  | [] => true
  | create_directories p :: calls' => created_before (p :: created) calls'
  | ConfigWatcher_AddSource d _ :: calls'
  | InstanceConfigWatcher_AddSource d _ :: calls' =>
    bool_decide (d ∈ created) && created_before created calls'
  end.

(** ** Facts about [Init] *)

Lemma has_filename_app_name (a b : path) :
  has_filename b = true -> has_filename (a ++ b)%string = true.
Proof.
  intros Hb. induction a as [| c a IH]; simpl; [exact Hb |].
  destruct (a ++ b)%string eqn:Hab; [discriminate IH | exact IH].
Qed.

Lemma path_append_name (a : path) (name : string) :
  is_absolute name = false -> has_filename name = true ->
  has_filename (a /= name) = true
  /\ a /= name = (a ++ (if has_filename a then "/" else "") ++ name)%string.
Proof.
  intros Habs Hname. unfold path_append. rewrite Habs.
  destruct (has_filename a).
  - split; [| reflexivity].
    apply has_filename_app_name. simpl. destruct name; [discriminate | exact Hname].
  - split; [| reflexivity]. now apply has_filename_app_name.
Qed.

(** C7. For every [dir], for every provider and whatever
    [create_directories] reports, [Init] makes four calls: it creates and
    then registers with the [ConfigWatcher] the directory
    [confDir / "pipeline_config" / dir], with the provider's pipeline mutex,
    and it creates and then registers with the [InstanceConfigWatcher] the
    directory [confDir / "instance_config" / dir], with the provider's
    instance mutex: one source per watcher. The provider's two source
    directories are set to these paths and the rest of the provider is
    unchanged. [/] is [operator/=] of [std::filesystem::path]: for a [dir]
    that is a name (not an absolute path) the two directories are
    [confDir/pipeline_config] and [confDir/instance_config] followed by a
    separator and [dir]. *)
Theorem Init_registers_two_sources {Rest : Type} (confDir : string)
    (create_directories_ec : path -> error_code) (dir : string)
    (this : ConfigProvider Rest) :
  let pipelineDir := confDir /= "pipeline_config" /= dir in
  let instanceDir := confDir /= "instance_config" /= dir in
  let '(this', calls) := Init confDir create_directories_ec dir this in
  calls = [ create_directories pipelineDir;
            ConfigWatcher_AddSource pipelineDir mPipelineMux;
            create_directories instanceDir;
            InstanceConfigWatcher_AddSource instanceDir mInstanceMux ]
  /\ pipeline_sources calls = [(pipelineDir, mPipelineMux)]
  /\ instance_sources calls = [(instanceDir, mInstanceMux)]
  /\ created_before [] calls = true
  /\ this' = mkConfigProvider pipelineDir instanceDir (rest this)
  /\ (is_absolute dir = false ->
      pipelineDir = ((confDir /= "pipeline_config") ++ "/" ++ dir)%string
      /\ instanceDir = ((confDir /= "instance_config") ++ "/" ++ dir)%string).
Proof.
  cbv zeta. unfold Init. cbn [mPipelineSourceDir mInstanceSourceDir rest].
  split; [reflexivity |]. split; [reflexivity |]. split; [reflexivity |].
  split; [| split; [reflexivity | intros H; split]].
  - cbn [created_before app].
    rewrite !bool_decide_eq_true_2; [reflexivity | set_solver | set_solver].
  - destruct (path_append_name confDir "pipeline_config") as [Hf _];
      [reflexivity | reflexivity |].
    unfold path_append at 1. now rewrite H, Hf.
  - destruct (path_append_name confDir "instance_config") as [Hf _];
      [reflexivity | reflexivity |].
    unfold path_append at 1. now rewrite H, Hf.
Qed.

(** [operator/=] on a few paths. *)
Example path_append_examples :
  "/etc/ilogtail" /= "config" = "/etc/ilogtail/config"
  /\ "/etc/ilogtail/" /= "config" = "/etc/ilogtail/config"
  /\ "" /= "config" = "config"
  /\ "/etc/ilogtail" /= "" = "/etc/ilogtail/"
  /\ "/etc/ilogtail" /= "/tmp/x" = "/tmp/x".
Proof. repeat split. Qed.

(** With an absolute [dir] both watchers are handed [dir] itself. *)
Example Init_absolute_dir :
  (Init "/etc/ilogtail/config" (fun _ => 0%Z) "/tmp/x"
        (mkConfigProvider "" "" tt)).2
  = [ create_directories "/tmp/x";
      ConfigWatcher_AddSource "/tmp/x" mPipelineMux;
      create_directories "/tmp/x";
      InstanceConfigWatcher_AddSource "/tmp/x" mInstanceMux ].
Proof. reflexivity. Qed.

(** [Init "local"] with the configuration directory [/etc/ilogtail/config]. *)
Lemma Init_registers_two_sources_witness :
  let '(this', calls) :=
    Init "/etc/ilogtail/config" (fun _ => 0%Z) "local"
         (mkConfigProvider "" "" tt) in
  calls = [ create_directories "/etc/ilogtail/config/pipeline_config/local";
            ConfigWatcher_AddSource
              "/etc/ilogtail/config/pipeline_config/local" mPipelineMux;
            create_directories "/etc/ilogtail/config/instance_config/local";
            InstanceConfigWatcher_AddSource
              "/etc/ilogtail/config/instance_config/local" mInstanceMux ]
  /\ this' = mkConfigProvider "/etc/ilogtail/config/pipeline_config/local"
                              "/etc/ilogtail/config/instance_config/local" tt.
Proof.
  pose proof (Init_registers_two_sources "/etc/ilogtail/config"
                (fun _ => 0%Z) "local" (mkConfigProvider "" "" tt)) as H.
  cbv zeta in H.
  destruct (Init "/etc/ilogtail/config" (fun _ => 0%Z) "local"
                 (mkConfigProvider "" "" tt)) as [this' calls].
  destruct H as (Hcalls & _ & _ & _ & Hthis & Htext).
  destruct Htext as [Hp Hi]; [reflexivity |].
  split; [exact Hcalls | exact Hthis].
Defined.

(** ** More facts about [Init] *)

Lemma string_app_assoc (a b c : string) :
  ((a ++ b) ++ c)%string = (a ++ (b ++ c))%string.
Proof.
  induction a as [| ch a IH]; [reflexivity |].
  change (String ch ((a ++ b) ++ c)%string = String ch (a ++ (b ++ c))%string).
  now rewrite IH.
Qed.

Lemma string_app_inv_head (a x y : string) :
  (a ++ x)%string = (a ++ y)%string -> x = y.
Proof.
  induction a as [| ch a IH]; [trivial |].
  change (String ch (a ++ x)%string = String ch (a ++ y)%string -> x = y).
  intros [= H]. now apply IH.
Qed.

(** X14. The two directories [Init] registers are the same directory exactly
    when [dir] is an absolute path: then both watchers are handed [dir]
    itself; for every other [dir] the pipeline watcher and the instance
    watcher get different directories. *)
Theorem Init_directories_equal_iff_absolute {Rest : Type} (confDir : string)
    (create_directories_ec : path -> error_code) (dir : string)
    (this : ConfigProvider Rest) :
  let this' := (Init confDir create_directories_ec dir this).1 in
  (mPipelineSourceDir this' = mInstanceSourceDir this' <-> is_absolute dir = true)
  /\ (is_absolute dir = true ->
      mPipelineSourceDir this' = dir /\ mInstanceSourceDir this' = dir).
Proof.
  cbv zeta. unfold Init. cbn [fst mPipelineSourceDir mInstanceSourceDir].
  destruct (is_absolute dir) eqn:Habs.
  - assert (H : forall a, a /= dir = dir)
      by (intros a; unfold path_append; now rewrite Habs).
    rewrite !H. repeat split.
  - split; [| discriminate]. split; [| discriminate].
    intros Heq. exfalso.
    destruct (path_append_name confDir "pipeline_config") as [Hf1 He1];
      [reflexivity | reflexivity |].
    destruct (path_append_name confDir "instance_config") as [Hf2 He2];
      [reflexivity | reflexivity |].
    unfold path_append at 1 3 in Heq. rewrite Habs, Hf1, Hf2, He1, He2 in Heq.
    rewrite !string_app_assoc in Heq.
    apply string_app_inv_head in Heq.
    destruct (has_filename confDir); simpl in Heq; discriminate Heq.
Qed.

Lemma Init_directories_equal_iff_absolute_witness :
  mPipelineSourceDir
    (Init "/etc/ilogtail/config" (fun _ => 0%Z) "/tmp/x"
          (mkConfigProvider "" "" tt)).1 = "/tmp/x"
  /\ mInstanceSourceDir
       (Init "/etc/ilogtail/config" (fun _ => 0%Z) "/tmp/x"
             (mkConfigProvider "" "" tt)).1 = "/tmp/x".
Proof.
  apply (Init_directories_equal_iff_absolute "/etc/ilogtail/config"
           (fun _ => 0%Z) "/tmp/x" (mkConfigProvider "" "" tt)).
  reflexivity.
Defined.

End ConfigProvider.

(* ===================================================================== *)
(** * The delivery pipeline of the specification                          *)
(* ===================================================================== *)

Module Pipeline.

(** Modelled from the spec: the queues, the batcher, the router, the
    serializer, the compressor and the rate limiters are described by the
    specification (sections 3 to 5) and their code is not among the sources.
    What follows is written from the specification's words. *)

(** Modelled from the spec: "QueueKey: identifies a logical destination
    stream, composed of {region, project, logical-store,
    shard-or-partition}" (section 3). *)
Record QueueKey : Type := mkQueueKey {
  region : string;
  project : string;
  logstore : string;
  shard : nat
}.

#[global] Instance QueueKey_eq_dec : EqDecision QueueKey.
Proof. solve_decision. Defined.

#[global] Program Instance QueueKey_countable : Countable QueueKey :=
  inj_countable'
    (fun k => (region k, project k, logstore k, shard k))
    (fun t => match t with (r, p, l, s) => mkQueueKey r p l s end) _.
Next Obligation. intros []; reflexivity. Qed.

(** ** The bounded queue *)

Section Queue.

Context {A : Type}.

(** Modelled from the spec: "Queue: a bounded mapping-like structure keyed
    by QueueKey, each key holding an ordered sequence of elements up to a
    capacity limit plus an overflow allowance" (section 3), with the discard
    counter of section 4.1 and the high-water mark of section 4.5. *)
Record Queue : Type := mkQueue {
  capacity : nat;
  overflow : nat;
  high_water : nat;
  contents : gmap QueueKey (list A);
  discarded : nat
}.

Definition empty_queue (cap ovf hw : nat) : Queue := mkQueue cap ovf hw ∅ 0.

(** The elements held for a key, oldest first. *)
Definition at_key (q : Queue) (k : QueueKey) : list A :=
  default [] (contents q !! k).

Definition set_key (q : Queue) (k : QueueKey) (xs : list A) : Queue :=
  mkQueue (capacity q) (overflow q) (high_water q) (<[k := xs]> (contents q))
          (discarded q).

Definition count_discard (q : Queue) : Queue :=
  mkQueue (capacity q) (overflow q) (high_water q) (contents q)
          (Datatypes.S (discarded q)).

(** Modelled from the spec: "Push(QueueKey, EventGroup) -> bool returns
    false and increments a discard counter if capacity+overflow for that key
    is exceeded; otherwise appends and returns true" (section 4.1). *)
Definition Push (k : QueueKey) (x : A) (q : Queue) : Queue * bool :=
  if (length (at_key q k) <? capacity q + overflow q)%nat
  then (set_key q k (at_key q k ++ [x]), true)
  else (count_discard q, false).

(** Modelled from the spec: "Pop(QueueKey) -> (EventGroup, bool) is
    non-blocking" (section 4.1); elements leave in FIFO order (section 3). *)
Definition Pop (k : QueueKey) (q : Queue) : Queue * option A :=
  match at_key q k with
  | [] => (q, None)
  | x :: xs => (set_key q k xs, Some x)
  end.

(** Modelled from the spec: "ValidToPush(QueueKey) -> bool, true while
    occupancy is below a high-water mark" (section 4.5): a query over the
    current occupancy. *)
Definition ValidToPush (k : QueueKey) (q : Queue) : bool :=
  (length (at_key q k) <? high_water q)%nat.

(** The extra-buffer usage: what is held beyond [capacity]. *)
Definition extra_buffer_size (k : QueueKey) (q : Queue) : nat :=
  length (at_key q k) - capacity q.

(** A sequence of [Push] and [Pop] operations. *)
Inductive QueueOp : Type :=
| DoPush (k : QueueKey) (x : A)
| DoPop (k : QueueKey).

(** One operation: the queue after it, and the result of a [Push]. *)
Definition apply_op (q : Queue) (op : QueueOp) : Queue * list bool :=
  match op with
  | DoPush k x => let '(q', ok) := Push k x q in (q', [ok])
  | DoPop k => ((Pop k q).1, [])
  end.

(** The queue after a sequence of operations and the results of its
    [Push]es, in order. *)
Definition run_ops (q : Queue) (ops : list QueueOp) : Queue * list bool :=
  foldl (fun acc op =>
           let '(q', out) := apply_op acc.1 op in (q', acc.2 ++ out))
        (q, []) ops.

(** How many of the [Push]es were rejected. *)
Definition rejected (results : list bool) : nat :=
  length (filter (fun ok => ok = false) results).

End Queue.

Arguments Queue : clear implicits.
Arguments QueueOp : clear implicits.

(** ** Rate limiters *)

Import MetricConstants.

(** Modelled from the spec: "RateLimiterState: per-scope
    (region/project/store/global) token state, refilled on a fixed schedule;
    consulted read-then-decrement before a dequeue is allowed to proceed"
    (section 3). *)
Record Limiters : Type := mkLimiters {
  global_tokens : nat;
  region_tokens : gmap string nat;
  project_tokens : gmap string nat;
  logstore_tokens : gmap string nat
}.

(** The tokens left at a scope for the stream of a key. *)
Definition tokens (lim : Limiters) (s : Scope) (k : QueueKey) : nat :=
  match s with
  | Global => global_tokens lim
  | Region => default 0 (region_tokens lim !! region k)
  | Project => default 0 (project_tokens lim !! project k)
  | LogicalStore => default 0 (logstore_tokens lim !! logstore k)
  end.

Definition set_tokens (lim : Limiters) (s : Scope) (k : QueueKey) (n : nat)
    : Limiters :=
  match s with
  | Global =>
    mkLimiters n (region_tokens lim) (project_tokens lim) (logstore_tokens lim)
  | Region =>
    mkLimiters (global_tokens lim) (<[region k := n]> (region_tokens lim))
               (project_tokens lim) (logstore_tokens lim)
  | Project =>
    mkLimiters (global_tokens lim) (region_tokens lim)
               (<[project k := n]> (project_tokens lim)) (logstore_tokens lim)
  | LogicalStore =>
    mkLimiters (global_tokens lim) (region_tokens lim) (project_tokens lim)
               (<[logstore k := n]> (logstore_tokens lim))
  end.

(** Modelled from the spec: "TryAcquire(scope) -> bool" (section 4.6), read
    then decrement. *)
Definition TryAcquire (s : Scope) (k : QueueKey) (lim : Limiters)
    : Limiters * bool :=
  match tokens lim s k with
  | O => (lim, false)
  | Datatypes.S n => (set_tokens lim s k n, true)
  end.

(** Modelled from the spec: "The Flusher Runner must pass acquisition at all
    applicable scopes before an Item can be dequeued for sending; failing any
    one scope counts a scope-specific rejection metric and leaves the Item in
    place" (section 4.6). The scopes are tried in turn; the result names the
    scope whose [TryAcquire] failed, if one did. *)
Fixpoint acquire_all (ss : list Scope) (k : QueueKey) (lim : Limiters)
    : Limiters * option Scope :=
  match ss with
  | [] => (lim, None)
  | s :: ss' =>
    let '(lim', ok) := TryAcquire s k lim in
    if ok then acquire_all ss' k lim' else (lim', Some s)
  end.

(** Counters are kept under the names MetricConstants.h declares. *)
Definition counter (cs : gmap string nat) (name : string) : nat :=
  default 0 (cs !! name).

Definition bump (name : string) (cs : gmap string nat) : gmap string nat :=
  <[name := Datatypes.S (counter cs name)]> cs.

(** ** From the process queue to the sender queue *)

Section Path.

(** An event group and a serialized payload are opaque; [size_of] is the byte
    size of an event group. *)
Context {EventGroup Payload : Type}.
Variable size_of : EventGroup -> nat.

(** Modelled from the spec: the serializer fails on malformed data and the
    compressor may fail (section 4.4); [Deserialize] and [Decompress] are what
    the destination does (section 8, round trip). *)
Variable Serialize : list EventGroup -> option Payload.
Variable Compress : Payload -> option Payload.
Variable Deserialize : Payload -> list EventGroup.
Variable Decompress : Payload -> Payload.

(** The byte threshold at which a batch is closed. *)
Variable maxBatchBytes : nat.

(** Modelled from the spec: "Item: the serialized (and optionally
    compressed) form of a closed Batch, tagged with QueueKey, original
    event/byte counts, and a retry counter" (section 3). *)
Record Item : Type := mkItem {
  item_key : QueueKey;
  payload : Payload;
  is_compressed : bool;
  original_groups : nat;
  original_bytes : nat;
  retry : nat
}.

(** Modelled from the spec: the process queue, one open batch per key
    (section 4.2), the sender queue, the destinations the router can resolve
    (section 4.3), the rate limiters and the counters. *)
Record State : Type := mkState {
  process_queue : Queue EventGroup;
  open_batch : gmap QueueKey (list EventGroup);
  sender_queue : Queue Item;
  destinations : gset QueueKey;
  limiters : Limiters;
  counters : gmap string nat
}.

Definition batch_at (st : State) (k : QueueKey) : list EventGroup :=
  default [] (open_batch st !! k).

Definition batch_bytes (b : list EventGroup) : nat :=
  foldr (fun eg n => size_of eg + n) 0 b.

(** Serializer then compressor: [None] when serialization fails; the
    uncompressed payload when compression fails. *)
Definition make_item (k : QueueKey) (b : list EventGroup) : option Item :=
  match Serialize b with
  | None => None
  | Some pl =>
    match Compress pl with
    | Some z => Some (mkItem k z true (length b) (batch_bytes b) 0)
    | None => Some (mkItem k pl false (length b) (batch_bytes b) 0)
    end
  end.

(** What the destination reads back from an item. *)
Definition decode (it : Item) : list EventGroup :=
  if is_compressed it then Deserialize (Decompress (payload it))
  else Deserialize (payload it).

(** Closing the open batch of a key: it is handed to the router; with no
    destination for the key it is discarded and counted; a batch that does not
    serialize is discarded and counted; otherwise the item is pushed to the
    sender queue. The second component is the item appended to the sender
    queue, if one was. *)
Definition close_batch (k : QueueKey) (st : State)
    : State * list (QueueKey * Item) :=
  match batch_at st k with
  | [] => (st, [])
  | b =>
    let batches := <[k := []]> (open_batch st) in
    if bool_decide (k ∈ destinations st) then
      match make_item k b with
      | None =>
        (mkState (process_queue st) batches (sender_queue st) (destinations st)
                 (limiters st)
                 (bump "METRIC_PLUGIN_OUT_FAILED_EVENTS_TOTAL" (counters st)),
         [])
      | Some it =>
        let '(sq, ok) := Push k it (sender_queue st) in
        (mkState (process_queue st) batches sq (destinations st) (limiters st)
                 (counters st),
         if ok then [(k, it)] else [])
      end
    else
      (mkState (process_queue st) batches (sender_queue st) (destinations st)
               (limiters st)
               (bump "METRIC_COMPONENT_DISCARDED_ITEMS_TOTAL" (counters st)),
       [])
  end.

(** What happens in the pipeline, one atomic step per key at a time
    (section 5: mutations are protected by per-key locks). *)
Inductive Event : Type :=
| Submit (k : QueueKey) (eg : EventGroup)
| BatcherTake (k : QueueKey)
| Sweep (k : QueueKey)
| Fetch (k : QueueKey)
| Refill (lim : Limiters)
| AddDestination (k : QueueKey)
| RemoveDestination (k : QueueKey).

(** A producer submits an event group (section 6). *)
Definition submit (k : QueueKey) (eg : EventGroup) (st : State) : State :=
  mkState (Push k eg (process_queue st)).1 (open_batch st) (sender_queue st)
          (destinations st) (limiters st) (counters st).

(** The batcher pops one event group, unless the sender queue of the key is
    not valid to push (section 4.1), adds it to the open batch and closes the
    batch when its size reaches the threshold (section 4.2). *)
Definition batcher_take (k : QueueKey) (st : State)
    : State * list (QueueKey * Item) :=
  if ValidToPush k (sender_queue st) then
    match Pop k (process_queue st) with
    | (pq, Some eg) =>
      let b := batch_at st k ++ [eg] in
      let st' := mkState pq (<[k := b]> (open_batch st)) (sender_queue st)
                         (destinations st) (limiters st) (counters st) in
      if (maxBatchBytes <=? batch_bytes b)%nat then close_batch k st'
      else (st', [])
    | (_, None) => (st, [])
    end
  else (st, []).

(** The timer sweep closes the batch of a key whose age passed the timeout
    (section 4.2), unless the sender queue is not valid to push. *)
Definition sweep (k : QueueKey) (st : State) : State * list (QueueKey * Item) :=
  if ValidToPush k (sender_queue st) then close_batch k st else (st, []).

(** A send worker tries to dequeue the oldest item of a key (sections 4.6
    and 4.7): a rejection by a limiter is counted under that scope's counter
    and the item stays. *)
Definition fetch (k : QueueKey) (st : State) : State :=
  match at_key (sender_queue st) k with
  | [] => st
  | _ :: _ =>
    let cs := bump "METRIC_COMPONENT_FETCH_TIMES_TOTAL" (counters st) in
    match acquire_all all_scopes k (limiters st) with
    | (lim, Some s) =>
      mkState (process_queue st) (open_batch st) (sender_queue st)
              (destinations st) lim (bump (fetch_rejected_key s) cs)
    | (lim, None) =>
      mkState (process_queue st) (open_batch st) (Pop k (sender_queue st)).1
              (destinations st) lim
              (bump "METRIC_COMPONENT_FETCHED_ITEMS_TOTAL" cs)
    end
  end.

(** One step: the state after the event and the items it appended to the
    sender queue. *)
Definition step (st : State) (e : Event) : State * list (QueueKey * Item) :=
  match e with
  | Submit k eg => (submit k eg st, [])
  | BatcherTake k => batcher_take k st
  | Sweep k => sweep k st
  | Fetch k => (fetch k st, [])
  | Refill lim =>
    (mkState (process_queue st) (open_batch st) (sender_queue st)
             (destinations st) lim (counters st), [])
  | AddDestination k =>
    (mkState (process_queue st) (open_batch st) (sender_queue st)
             ({[k]} ∪ destinations st) (limiters st) (counters st), [])
  | RemoveDestination k =>
    (mkState (process_queue st) (open_batch st) (sender_queue st)
             (destinations st ∖ {[k]}) (limiters st) (counters st), [])
  end.

(** A run: the final state and every item appended to the sender queue, in
    order. *)
Definition run (st : State) (events : list Event)
    : State * list (QueueKey * Item) :=
  foldl (fun acc e => let '(st', out) := step acc.1 e in (st', acc.2 ++ out))
        (st, []) events.

(** The event groups submitted under a key, in arrival order. *)
Definition arrivals (k : QueueKey) (events : list Event) : list EventGroup :=
  omap (fun e => match e with
                 | Submit k' eg => if bool_decide (k' = k) then Some eg else None
                 | _ => None
                 end) events.

(** The items appended to the sender queue of a key, in order. *)
Definition appended (k : QueueKey) (log : list (QueueKey * Item)) : list Item :=
  omap (fun ki => if bool_decide (ki.1 = k) then Some ki.2 else None) log.

(** The pipeline at start: empty queues, no open batch. *)
Definition initial (pq_cap pq_ovf sq_cap sq_ovf sq_hw : nat)
    (dests : gset QueueKey) (lim : Limiters) : State :=
  mkState (empty_queue pq_cap pq_ovf 0) ∅ (empty_queue sq_cap sq_ovf sq_hw)
          dests lim ∅.

End Path.

Arguments Item : clear implicits.
Arguments State : clear implicits.
Arguments Event : clear implicits.

(** ** A concrete pipeline

    Event groups are numbers of one byte each, a payload is the list it
    serializes, compression always fails (the payload is passed through), and
    a batch is closed at two bytes. *)

Definition k1 : QueueKey := mkQueueKey "cn-hangzhou" "proj" "store" 0.

Definition demo_events : list (Event nat) :=
  [ Submit k1 1; Submit k1 2; Submit k1 3; BatcherTake k1; BatcherTake k1;
    BatcherTake k1; Sweep k1 ].

Definition demo_run : State nat (list nat) * list (QueueKey * Item (list nat)) :=
  run (fun _ => 1) Some (fun _ => None) 2
      (initial 8 2 4 1 4 {[k1]} (mkLimiters 1 ∅ ∅ ∅)) demo_events.

(** A state whose sender queue holds one item for [k1] while the global
    limiter has no token left. *)
Definition throttled : State nat (list nat) :=
  mkState (empty_queue 8 2 0) ∅
          (set_key (empty_queue 4 1 4) k1 [mkItem k1 [1; 2] false 2 2 0])
          {[k1]} (mkLimiters 0 ∅ ∅ ∅) ∅.

(** ** Facts about the bounded queue *)

Section QueueFacts.

Context {A : Type}.
Implicit Types (q : Queue A) (k : QueueKey) (x : A).

Lemma at_key_set_key q k xs k' :
  at_key (set_key q k xs) k' = if decide (k = k') then xs else at_key q k'.
Proof.
  unfold at_key, set_key; simpl. destruct (decide (k = k')) as [-> | Hne].
  - now rewrite lookup_insert_eq.
  - now rewrite lookup_insert_ne.
Qed.

Lemma at_key_empty cap ovf hw k : at_key (@empty_queue A cap ovf hw) k = [].
Proof. reflexivity. Qed.

(** What a [Push] does, observed through [at_key] and [discarded]. *)
Lemma Push_observed k x q :
  let '(q', ok) := Push k x q in
  ok = (length (at_key q k) <? capacity q + overflow q)%nat
  /\ (forall k', at_key q' k'
                 = if ok && bool_decide (k = k') then at_key q k ++ [x]
                   else at_key q k')
  /\ discarded q' = (if ok then discarded q else Datatypes.S (discarded q))
  /\ capacity q' = capacity q /\ overflow q' = overflow q
  /\ high_water q' = high_water q.
Proof.
  unfold Push.
  destruct (length (at_key q k) <? capacity q + overflow q)%nat.
  - repeat split. intros k'. rewrite at_key_set_key. simpl.
    destruct (decide (k = k')) as [-> | Hne].
    + now rewrite bool_decide_eq_true_2.
    + now rewrite bool_decide_eq_false_2.
  - repeat split.
Qed.

(** What a [Pop] does. *)
Lemma Pop_observed k q :
  let '(q', r) := Pop k q in
  at_key q k = match r with Some x => x :: at_key q' k | None => [] end
  /\ (forall k', k <> k' -> at_key q' k' = at_key q k')
  /\ (r = None -> q' = q)
  /\ discarded q' = discarded q
  /\ capacity q' = capacity q /\ overflow q' = overflow q
  /\ high_water q' = high_water q.
Proof.
  unfold Pop. destruct (at_key q k) as [| x xs] eqn:Hk.
  - repeat split; auto.
  - repeat split; try discriminate.
    + now rewrite at_key_set_key, decide_True.
    + intros k' Hne. now rewrite at_key_set_key, decide_False.
Qed.

Lemma run_ops_snoc q ops op :
  run_ops q (ops ++ [op])
  = let '(q', out) := apply_op (run_ops q ops).1 op in
    (q', (run_ops q ops).2 ++ out).
Proof. unfold run_ops. now rewrite foldl_app. Qed.

Lemma rejected_app (r1 r2 : list bool) :
  rejected (r1 ++ r2) = rejected r1 + rejected r2.
Proof. unfold rejected. now rewrite filter_app, length_app. Qed.

(** The invariant of a queue that starts empty. *)
Lemma run_ops_invariant cap ovf hw (ops : list (QueueOp A)) :
  let q := (run_ops (empty_queue cap ovf hw) ops).1 in
  let results := (run_ops (empty_queue cap ovf hw) ops).2 in
  capacity q = cap /\ overflow q = ovf
  /\ (forall k, length (at_key q k) <= cap + ovf)
  /\ discarded q = rejected results.
Proof.
  cbv zeta. induction ops as [| op ops IH] using rev_ind.
  - simpl. repeat split. intros k. rewrite at_key_empty. simpl. lia.
  - rewrite run_ops_snoc.
    destruct (run_ops (empty_queue cap ovf hw) ops) as [q results].
    simpl in IH. destruct IH as (Hcap & Hovf & Hlen & Hdisc).
    destruct op as [k x | k]; simpl.
    + pose proof (Push_observed k x q) as HP.
      destruct (Push k x q) as [q' ok].
      destruct HP as (Hok & Hat & Hd & Hc & Ho & _). simpl.
      split; [congruence |]. split; [congruence |]. split.
      * intros k'. rewrite Hat.
        destruct ok; simpl; [| apply Hlen].
        case_bool_decide; [| apply Hlen]. subst k'.
        rewrite length_app. simpl.
        symmetry in Hok. apply Nat.ltb_lt in Hok. lia.
      * rewrite rejected_app, Hd, Hdisc.
        destruct ok.
        -- change (rejected [true]) with 0. lia.
        -- change (rejected [false]) with 1. lia.
    + pose proof (Pop_observed k q) as HP.
      destruct (Pop k q) as [q' r].
      destruct HP as (Hat & Hother & Hnone & Hd & Hc & Ho & _). simpl.
      split; [congruence |]. split; [congruence |]. split.
      * intros k'. destruct (decide (k = k')) as [<- | Hne].
        -- pose proof (Hlen k) as Hk. rewrite Hat in Hk.
           destruct r; [simpl in Hk; lia |].
           rewrite (Hnone eq_refl). apply Hlen.
        -- rewrite Hother by exact Hne. apply Hlen.
      * rewrite app_nil_r. congruence.
Qed.

(** C1. After any sequence of [Push] and [Pop] operations on a queue that
    starts empty, no key holds more than [capacity + overflow] elements; the
    discard counter equals the number of [Push]es that returned false; and the
    next [Push] returns true exactly when the key holds fewer than
    [capacity + overflow] elements, in which case it appends the element to
    that key and leaves the counter alone, and otherwise it changes no key and
    adds one to the counter. *)
Theorem queue_bound_and_discards (cap ovf hw : nat) (ops : list (QueueOp A)) :
  let q := (run_ops (empty_queue cap ovf hw) ops).1 in
  let results := (run_ops (empty_queue cap ovf hw) ops).2 in
  (forall k, length (at_key q k) <= cap + ovf)
  /\ discarded q = rejected results
  /\ (forall k x,
        let '(q', ok) := Push k x q in
        ok = (length (at_key q k) <? cap + ovf)%nat
        /\ (forall k', at_key q' k'
                       = if ok && bool_decide (k = k') then at_key q k ++ [x]
                         else at_key q k')
        /\ discarded q' = (if ok then discarded q else Datatypes.S (discarded q))).
Proof.
  cbv zeta.
  destruct (run_ops_invariant cap ovf hw ops) as (Hcap & Hovf & Hlen & Hdisc).
  split; [exact Hlen |]. split; [exact Hdisc |].
  intros k x.
  pose proof (Push_observed k x (run_ops (empty_queue cap ovf hw) ops).1) as HP.
  destruct (Push k x (run_ops (empty_queue cap ovf hw) ops).1) as [q' ok].
  destruct HP as (Hok & Hat & Hd & _). rewrite Hcap, Hovf in Hok. auto.
Qed.

End QueueFacts.

(** ** Facts about the rate limiters *)

(** A failed [TryAcquire] leaves the limiters as they were, with no token at
    the scope that refused. *)
Lemma acquire_all_rejected (ss : list Scope) (k : QueueKey) (lim : Limiters) s :
  (acquire_all ss k lim).2 = Some s ->
  s ∈ ss /\ TryAcquire s k (acquire_all ss k lim).1 = ((acquire_all ss k lim).1, false).
Proof.
  revert lim. induction ss as [| s0 ss IH]; intros lim; simpl; [discriminate |].
  destruct (TryAcquire s0 k lim) as [lim' ok] eqn:HT. destruct ok.
  - intros H. destruct (IH _ H) as [Hin Htry]. split; [now right | exact Htry].
  - simpl. intros [= <-]. split; [left |].
    unfold TryAcquire in *.
    destruct (tokens lim s0 k) eqn:Htok; inversion HT; subst.
    now rewrite Htok.
Qed.

Lemma counter_bump (cs : gmap string nat) (a b : string) :
  counter (bump a cs) b
  = if bool_decide (a = b) then Datatypes.S (counter cs b) else counter cs b.
Proof.
  unfold counter, bump. case_bool_decide as Hab.
  - subst. now rewrite lookup_insert_eq.
  - now rewrite lookup_insert_ne.
Qed.

Lemma fetch_rejected_key_inj (s s' : Scope) :
  fetch_rejected_key s = fetch_rejected_key s' -> s = s'.
Proof. destruct s, s'; simpl; intros H; try reflexivity; discriminate H. Qed.

Lemma fetch_rejected_key_not_times (s : Scope) :
  "METRIC_COMPONENT_FETCH_TIMES_TOTAL" <> fetch_rejected_key s.
Proof. destruct s; discriminate. Qed.

Section PathFacts.

Context {EventGroup Payload : Type}.
Variable size_of : EventGroup -> nat.
Variable Serialize : list EventGroup -> option Payload.
Variable Compress : Payload -> option Payload.
Variable Deserialize : Payload -> list EventGroup.
Variable Decompress : Payload -> Payload.
Variable maxBatchBytes : nat.

Local Abbreviation State := (State EventGroup Payload).
Local Abbreviation Item := (Item Payload).
Local Abbreviation Event := (Event EventGroup).
Local Abbreviation decode := (decode Deserialize Decompress).
Local Abbreviation make_item := (make_item size_of Serialize Compress).
Local Abbreviation close_batch := (close_batch size_of Serialize Compress).
Local Abbreviation step := (step size_of Serialize Compress maxBatchBytes).
Local Abbreviation run := (run size_of Serialize Compress maxBatchBytes).

(** C5. The header declares a rejection counter for each of the four
    rate-limiter scopes, four different keys. When a send worker fetches from
    a sender queue that holds an item and the [TryAcquire] of scope [s] fails,
    the sender queue is left as it was (the item stays), the counter of [s]
    goes up by one and the counters of the other three scopes do not move. *)
Theorem fetch_rejection_counted (st : State) (k : QueueKey) (s : Scope) :
  at_key (sender_queue st) k <> [] ->
  (acquire_all all_scopes k (limiters st)).2 = Some s ->
  let st' := fetch k st in
  Forall (fun s0 => fetch_rejected_key s0 ∈ declared_in Component "queue" MetricKey)
         all_scopes
  /\ NoDup (fetch_rejected_key <$> all_scopes)
  /\ TryAcquire s k (limiters st') = (limiters st', false)
  /\ sender_queue st' = sender_queue st
  /\ counter (counters st') (fetch_rejected_key s)
     = Datatypes.S (counter (counters st) (fetch_rejected_key s))
  /\ (forall s0, s0 <> s ->
        counter (counters st') (fetch_rejected_key s0)
        = counter (counters st) (fetch_rejected_key s0)).
Proof.
  intros Hne Hrej. cbv zeta.
  split; [apply (bool_decide_unpack _); vm_compute; reflexivity |].
  split; [apply (bool_decide_unpack _); vm_compute; reflexivity |].
  destruct (acquire_all_rejected _ _ _ _ Hrej) as [_ Htry].
  unfold fetch.
  destruct (at_key (sender_queue st) k) as [| it its]; [contradiction |].
  destruct (acquire_all all_scopes k (limiters st)) as [lim r].
  simpl in Hrej, Htry. subst r. simpl.
  split; [exact Htry |]. split; [reflexivity |]. split.
  - rewrite !counter_bump. rewrite bool_decide_eq_true_2 by reflexivity.
    rewrite bool_decide_eq_false_2 by apply fetch_rejected_key_not_times.
    reflexivity.
  - intros s0 Hs0. rewrite !counter_bump.
    rewrite bool_decide_eq_false_2
      by (intros Heq; apply Hs0; symmetry; now apply fetch_rejected_key_inj).
    rewrite bool_decide_eq_false_2 by apply fetch_rejected_key_not_times.
    reflexivity.
Qed.

(** *** Order from the process queue to the sender queue *)

(** Modelled from the spec: the round trip of section 8,
    "Deserialize(Compress(Serialize(batch))) (at the destination,
    conceptually) reproduces the original EventGroup sequence". *)
Hypothesis Deserialize_Serialize :
  forall b pl, Serialize b = Some pl -> Deserialize pl = b.
Hypothesis Decompress_Compress :
  forall pl z, Compress pl = Some z -> Decompress z = pl.

Lemma decode_make_item k b it : make_item k b = Some it -> decode it = b.
Proof using Deserialize_Serialize Decompress_Compress.
  unfold Pipeline.make_item, Pipeline.decode.
  destruct (Serialize b) as [pl |] eqn:Hs; [| discriminate].
  destruct (Compress pl) as [z |] eqn:Hc; intros [= <-]; simpl.
  - rewrite (Decompress_Compress _ _ Hc). now apply Deserialize_Serialize.
  - now apply Deserialize_Serialize.
Qed.

Lemma appended_app k (l1 l2 : list (QueueKey * Item)) :
  appended k (l1 ++ l2) = appended k l1 ++ appended k l2.
Proof. unfold appended. apply omap_app. Qed.

Lemma arrivals_app k (e1 e2 : list Event) :
  arrivals k (e1 ++ e2) = arrivals k e1 ++ arrivals k e2.
Proof. unfold arrivals. apply omap_app. Qed.

Lemma batch_at_insert (st : State) pq k b (sq : Queue Item) ds lim cs k' :
  batch_at (mkState pq (<[k := b]> (open_batch st)) sq ds lim cs) k'
  = if decide (k = k') then b else batch_at st k'.
Proof.
  unfold batch_at; simpl. destruct (decide (k = k')) as [-> | Hne].
  - now rewrite lookup_insert_eq.
  - now rewrite lookup_insert_ne.
Qed.

(** Closing a batch moves it, whole and in order, to the sender queue, or
    drops it; the process queue is not touched. *)
Lemma close_batch_order (k : QueueKey) (st : State) (k' : QueueKey) :
  let '(st', out) := close_batch k st in
  process_queue st' = process_queue st
  /\ concat (decode <$> appended k' out) ++ batch_at st' k'
     `sublist_of` batch_at st k'.
Proof using Deserialize_Serialize Decompress_Compress.
  unfold Pipeline.close_batch.
  destruct (batch_at st k) as [| eg b] eqn:Hb.
  { split; [reflexivity |]. simpl. reflexivity. }
  assert (Hdrop : forall pq (sq : Queue Item) ds lim cs,
    batch_at (mkState pq (<[k := []]> (open_batch st)) sq ds lim cs) k'
    `sublist_of` batch_at st k').
  { intros. rewrite batch_at_insert. destruct (decide (k = k')); [| reflexivity].
    apply sublist_nil_l. }
  case_bool_decide as Hdest.
  - destruct (make_item k (eg :: b)) as [it |] eqn:Hit.
    + destruct (Push k it (sender_queue st)) as [sq ok].
      split; [reflexivity |].
      destruct ok; [| simpl; apply Hdrop].
      unfold appended. simpl. case_bool_decide as Hk; simpl; [| apply Hdrop].
      subst k'. rewrite batch_at_insert, decide_True by reflexivity.
      rewrite !app_nil_r, Hb. now rewrite (decode_make_item _ _ _ Hit).
    + split; [reflexivity |]. simpl. apply Hdrop.
  - split; [reflexivity |]. simpl. apply Hdrop.
Qed.

Definition ordered (k : QueueKey) (st : State) (log : list (QueueKey * Item))
    (events : list Event) : Prop :=
  concat (decode <$> appended k log) ++ batch_at st k
    ++ at_key (process_queue st) k
  `sublist_of` arrivals k events.

Lemma ordered_close k0 k (st : State) log events :
  ordered k st log events ->
  ordered k (close_batch k0 st).1 (log ++ (close_batch k0 st).2) events.
Proof using Deserialize_Serialize Decompress_Compress.
  unfold ordered. intros H.
  pose proof (close_batch_order k0 st k) as Hc.
  destruct (close_batch k0 st) as [st' out]. destruct Hc as [Hpq Hsub]. simpl.
  rewrite Hpq, appended_app, fmap_app, concat_app.
  etransitivity; [| exact H].
  rewrite <- !app_assoc. apply sublist_app; [reflexivity |].
  rewrite !app_assoc. apply sublist_app; [exact Hsub | reflexivity].
Qed.

Lemma fetch_keeps_upstream k (st : State) :
  process_queue (fetch k st) = process_queue st
  /\ open_batch (fetch k st) = open_batch st.
Proof.
  unfold fetch. destruct (at_key (sender_queue st) k); [auto |].
  destruct (acquire_all all_scopes k (limiters st)) as [lim [s |]]; auto.
Qed.

Lemma ordered_step k (st : State) log events e :
  ordered k st log events ->
  ordered k (step st e).1 (log ++ (step st e).2) (events ++ [e]).
Proof using Deserialize_Serialize Decompress_Compress.
  intros H.
  assert (Hidle : forall st',
    process_queue st' = process_queue st -> open_batch st' = open_batch st ->
    arrivals k [e] = [] ->
    ordered k st' (log ++ []) (events ++ [e])).
  { intros st' Hpq Hob He. unfold ordered, batch_at in *.
    now rewrite Hpq, Hob, arrivals_app, He, !app_nil_r. }
  assert (Hquiet : forall st' out,
    arrivals k [e] = [] -> ordered k st' (log ++ out) events ->
    ordered k st' (log ++ out) (events ++ [e])).
  { intros st' out He Ho. unfold ordered in *.
    now rewrite arrivals_app, He, app_nil_r. }
  destruct e as [k0 eg | k0 | k0 | k0 | lim | k0 | k0]; simpl;
    try (apply Hidle; reflexivity).
  - (* Submit *)
    unfold ordered, submit, batch_at in *. simpl.
    pose proof (Push_observed k0 eg (process_queue st)) as HP.
    destruct (Push k0 eg (process_queue st)) as [pq ok].
    destruct HP as (_ & Hat & _). simpl.
    rewrite Hat, arrivals_app, app_nil_r. unfold arrivals at 2. simpl.
    case_bool_decide as Hk; simpl.
    + subst k0. destruct ok; simpl.
      * rewrite !app_assoc. apply sublist_app; [| reflexivity].
        rewrite <- !app_assoc. exact H.
      * now apply sublist_inserts_r.
    + rewrite andb_false_r, app_nil_r. exact H.
  - (* BatcherTake *)
    apply Hquiet; [reflexivity |]. unfold batcher_take.
    destruct (ValidToPush k0 (sender_queue st));
      [| unfold ordered in *; simpl; now rewrite app_nil_r].
    pose proof (Pop_observed k0 (process_queue st)) as HP.
    destruct (Pop k0 (process_queue st)) as [pq [eg |]];
      [| unfold ordered in *; simpl; now rewrite app_nil_r].
    destruct HP as (Hhead & Hother & _).
    set (st1 := mkState pq (<[k0 := batch_at st k0 ++ [eg]]> (open_batch st))
                        (sender_queue st) (destinations st) (limiters st)
                        (counters st)).
    assert (H1 : ordered k st1 log events).
    { unfold ordered in *. subst st1. rewrite batch_at_insert. simpl.
      destruct (decide (k0 = k)) as [-> | Hne].
      - rewrite Hhead in H. rewrite <- app_assoc. exact H.
      - now rewrite (Hother k Hne). }
    destruct (maxBatchBytes <=? _)%nat.
    + now apply ordered_close.
    + simpl. now rewrite app_nil_r.
  - (* Sweep *)
    apply Hquiet; [reflexivity |]. unfold sweep.
    destruct (ValidToPush k0 (sender_queue st)).
    + now apply ordered_close.
    + simpl. now rewrite app_nil_r.
  - (* Fetch *)
    destruct (fetch_keeps_upstream k0 st) as [Hpq Hob].
    now apply Hidle.
Qed.

Lemma run_snoc (st : State) events e :
  run st (events ++ [e])
  = ((step (run st events).1 e).1, (run st events).2 ++ (step (run st events).1 e).2).
Proof.
  unfold Pipeline.run. rewrite foldl_app. simpl.
  now destruct (Pipeline.step _ _ _ _ _ _).
Qed.

(** C2. Take any run of the pipeline from its initial state: producers
    submitting, the batcher taking from the process queue and closing batches,
    the timer sweep, send workers fetching, limiters refilling, destinations
    coming and going. For every key, the event groups of the items appended
    to that key's sender queue, read in the order the items were appended, form
    a subsequence of the event groups submitted under that key in arrival
    order: some may be missing (discarded), none is out of order. *)
Theorem fifo_per_key (pq_cap pq_ovf sq_cap sq_ovf sq_hw : nat)
    (dests : gset QueueKey) (lim : Limiters) (events : list Event)
    (k : QueueKey) :
  concat (decode <$> appended k
            (run (initial pq_cap pq_ovf sq_cap sq_ovf sq_hw dests lim) events).2)
  `sublist_of` arrivals k events.
Proof using Deserialize_Serialize Decompress_Compress.
  set (st0 := initial pq_cap pq_ovf sq_cap sq_ovf sq_hw dests lim).
  assert (H : ordered k (run st0 events).1 (run st0 events).2 events).
  { induction events as [| e events IH] using rev_ind.
    - unfold ordered. simpl. reflexivity.
    - rewrite run_snoc. simpl. now apply ordered_step. }
  unfold ordered in H.
  etransitivity; [| exact H]. now apply sublist_inserts_r.
Qed.

End PathFacts.

(** ** The concrete pipeline, run *)

(** The run appends two items to the sender queue of [k1]: the batch
    [1; 2], closed by size, and then the batch [3], closed by the sweep. *)
Example demo_run_appended :
  payload <$> appended k1 demo_run.2 = [[1; 2]; [3]].
Proof. vm_compute. reflexivity. Qed.

Lemma fifo_per_key_witness :
  concat (decode id id <$> appended k1 demo_run.2)
  `sublist_of` arrivals k1 demo_events.
Proof.
  apply (fifo_per_key (fun _ : nat => 1) Some (fun _ : list nat => None) id id 2).
  - intros b pl H. injection H as <-. reflexivity.
  - intros pl z H. discriminate H.
Defined.

Lemma fetch_rejection_counted_witness :
  sender_queue (fetch k1 throttled) = sender_queue throttled
  /\ counter (counters (fetch k1 throttled)) (fetch_rejected_key Global) = 1.
Proof.
  pose proof (fetch_rejection_counted throttled k1 Global) as H.
  cbv zeta in H.
  destruct H as (_ & _ & _ & Hq & Hc & _).
  - vm_compute. discriminate.
  - reflexivity.
  - split; [exact Hq | exact Hc].
Defined.

End Pipeline.
